(** * duim.py: disk usage report with bar charts

    A shallow embedding of [duim.py] and the properties of its pipeline:
    [call_du_sub] -> [create_dir_dict] -> [print_directory_info], with the
    helpers [percent_to_graph] and [human_readable_size].

    Python values are modelled as follows.
    - [int] is [Z] (unbounded).
    - [float] is an IEEE 754 binary64 value, [spec_float] with precision 53
      and maximal exponent 1024, and the operations of [SpecFloat]
      (round to nearest, ties to even).
    - [str] is [string]; the text handled is ASCII.
    - [dict] is an association list in insertion order: assigning to a key
      that is present keeps its position.
    - an exception is the [Raise] case of [result]; what was printed before
      it is kept next to it.
    - the interpreter converts between integers and decimal text up to
      4300 digits and raises [ValueError] beyond; [str] and [int] below
      have no such limit, and a property that needs a conversion to succeed
      asks for integers that are [convertible].
    - the process is read through a pipe in text mode: [stdout] is the text
      [communicate()] returns, that is what the process printed once its
      line ends are translated ([communicate] below). *)

From Stdlib Require Import ZArith List Bool Lia String Ascii.
From Stdlib Require Import Floats.SpecFloat.
From Stdlib Require Import QArith Qabs.
From Stdlib Require DecimalString DecimalPos.
From Stdlib Require Import Permutation Sorted.
Import ListNotations.

Local Open Scope string_scope.
Local Open Scope list_scope.
Local Open Scope Z_scope.

(** ** Exceptions *)

Inductive exn : Type :=
| ValueError
| OverflowError
| ZeroDivisionError
| KeyError
| IndexError.

Inductive result (A : Type) : Type :=
| Ok (a : A)
| Raise (e : exn).

Arguments Ok {A} a.
Arguments Raise {A} e.

Definition bind {A B : Type} (r : result A) (k : A -> result B) : result B :=
  match r with
  | Ok a => k a
  | Raise e => Raise e
  end.

Notation "'let*' x ':=' r 'in' k" := (bind r (fun x => k))
  (at level 10, x name, r at level 100, k at level 200).

(** ** Python floats (binary64) *)

Module Float.

Definition prec : Z := 53.
Definition emax : Z := 1024.

Definition float : Type := spec_float.

(** A float of the interpreter is a canonical binary64 value. *)
Definition is_float (f : float) : Prop := valid_binary prec emax f = true.

Definition mul : float -> float -> float := SFmul prec emax.
Definition div : float -> float -> float := SFdiv prec emax.
Definition leb : float -> float -> bool := SFleb.

(** [float(z)]: the nearest double; [OverflowError] when [z] is too large. *)
Definition of_int (z : Z) : result float :=
  match binary_normalize prec emax z 0 false with
  | S754_infinity _ => Raise OverflowError
  | f => Ok f
  end.

(** [a / b] on two [int]s: the exact quotient, rounded once. *)
Definition int_truediv (a b : Z) : result float :=
  if b =? 0 then Raise ZeroDivisionError
  else
    let s := xorb (a <? 0) (b <? 0) in
    let '(mz, ez, lz) := SFdiv_core_binary prec emax (Z.abs a) 0 (Z.abs b) 0 in
    match binary_round_aux prec emax s mz ez lz with
    | S754_infinity _ => Raise OverflowError
    | f => Ok f
    end.

(** [x * z] with [x] a float and [z] an int: [z] is converted first. *)
Definition mul_int (x : float) (z : Z) : result float :=
  let* y := of_int z in Ok (mul x y).

(** [x / z] with [x] a float and [z] an int. *)
Definition div_int (x : float) (z : Z) : result float :=
  if z =? 0 then Raise ZeroDivisionError
  else let* y := of_int z in Ok (div x y).

(** The integer nearest to [m / d], ties to the even one ([0 < d]). *)
Definition div_half_even (m d : Z) : Z :=
  let q := m / d in
  let r := m mod d in
  match 2 * r ?= d with
  | Lt => q
  | Gt => q + 1
  | Eq => if Z.even q then q else q + 1
  end.

(** The integer nearest to [m * 2^e], ties to even. *)
Definition nearest_int (m : positive) (e : Z) : Z :=
  match e with
  | Zneg p => div_half_even (Zpos m) (2 ^ Zpos p)
  | _ => Zpos m * 2 ^ e
  end.

(** [round(x)] with one argument. *)
Definition round (x : float) : result Z :=
  match x with
  | S754_zero _ => Ok 0
  | S754_finite s m e => Ok (cond_Zopp s (nearest_int m e))
  | S754_infinity _ => Raise OverflowError
  | S754_nan => Raise ValueError
  end.

(** The exact value of a finite float, as a rational. *)
Definition to_Q (x : float) : Q :=
  match x with
  | S754_finite s m e =>
      let v := match e with
               | Zneg p => Qmake (Zpos m) (2 ^ p)
               | _ => inject_Z (Zpos m * 2 ^ e)
               end in
      if s then Qopp v else v
  | _ => 0%Q
  end.

End Float.

Import Float.

(** ** Python strings *)

Definition str_len (s : string) : Z := Z.of_nat (String.length s).

Fixpoint repeat_str (s : string) (n : nat) : string :=
  match n with
  | O => ""
  | S k => s ++ repeat_str s k
  end.

(** [s * n]: [n] copies of [s], none when [n <= 0]. *)
Definition str_mul (s : string) (n : Z) : string := repeat_str s (Z.to_nat n).

(** Number of occurrences of the character [c] in [s]. *)
Fixpoint count_char (c : ascii) (s : string) : nat :=
  match s with
  | EmptyString => O
  | String x r => if Ascii.eqb x c then S (count_char c r) else count_char c r
  end.

(** Every character of [s] satisfies [P]. *)
Fixpoint all_chars (P : ascii -> Prop) (s : string) : Prop :=
  match s with
  | EmptyString => True
  | String x r => P x /\ all_chars P r
  end.

(** White space of [str.split()] among the ASCII characters:
    TAB, LF, VT, FF, CR, FS, GS, RS, US and the space. *)
Definition is_space (c : ascii) : bool :=
  let n := N_of_ascii c in
  ((9 <=? n) && (n <=? 13) || (28 <=? n) && (n <=? 32))%N.

Definition flush (cur : string) : list string :=
  match cur with
  | EmptyString => []
  | _ => [cur]
  end.

Fixpoint split_from (cur : string) (s : string) : list string :=
  match s with
  | EmptyString => flush cur
  | String c r =>
      if is_space c then flush cur ++ split_from "" r
      else split_from (cur ++ String c "") r
  end.

(** [s.split()]: the maximal runs of characters that are not white space. *)
Definition split (s : string) : list string := split_from "" s.

Fixpoint split_on_from (sep : ascii) (cur : string) (s : string) : list string :=
  match s with
  | EmptyString => [cur]
  | String c r =>
      if Ascii.eqb c sep then cur :: split_on_from sep "" r
      else split_on_from sep (cur ++ String c "") r
  end.

(** [s.split(sep)] for a separator of one character. *)
Definition split_on (sep : ascii) (s : string) : list string :=
  split_on_from sep "" s.

(** [' '.join(l)]. *)
Fixpoint join (l : list string) : string :=
  match l with
  | [] => ""
  | [x] => x
  | x :: r => x ++ " " ++ join r
  end.

Definition nonempty (s : string) : bool :=
  match s with
  | EmptyString => false
  | _ => true
  end.

(** [str(z)]: the decimal digits, with a minus sign when negative. *)
Definition str (z : Z) : string :=
  DecimalString.NilZero.string_of_int (Z.to_int z).

(** [s] right justified and left justified in a field of [n] characters. *)
Definition rjust (n : nat) (s : string) : string :=
  repeat_str " " (n - String.length s) ++ s.

Definition ljust (n : nat) (s : string) : string :=
  s ++ repeat_str " " (n - String.length s).

Definition digit_of (c : ascii) : option Z :=
  let n := N_of_ascii c in
  if ((48 <=? n) && (n <=? 57))%N then Some (Z.of_N n - 48) else None.

(** Decimal digits with single underscores between them, as [int()] takes
    them.  [prev] tells whether the previous character was a digit. *)
Fixpoint digits_val (acc : Z) (prev : bool) (s : string) : option Z :=
  match s with
  | EmptyString => if prev then Some acc else None
  | String c r =>
      match digit_of c with
      | Some d => digits_val (10 * acc + d) true r
      | None => if Ascii.eqb c "_" && prev then digits_val acc false r else None
      end
  end.

(** [int(s)] on a token of [split], which holds no white space: an optional
    sign, then the digits. *)
Definition int (s : string) : result Z :=
  let signed :=
    match s with
    | String "+" r => digits_val 0 false r
    | String "-" r => option_map Z.opp (digits_val 0 false r)
    | _ => digits_val 0 false s
    end in
  match signed with
  | Some z => Ok z
  | None => Raise ValueError
  end.

(** [f"{x:.<digits>f}"]: the exact value of [x] rounded to [digits]
    decimals, ties to even. *)
Definition format_fixed (digits : nat) (x : float) : string :=
  match x with
  | S754_nan => "nan"
  | S754_infinity s => if s then "-inf" else "inf"
  | _ =>
      let scale := 10 ^ Z.of_nat digits in
      let '(s, n) :=
        match x with
        | S754_finite s m e =>
            (s, match e with
                | Zneg p => div_half_even (Zpos m * scale) (2 ^ Zpos p)
                | _ => Zpos m * 2 ^ e * scale
                end)
        | S754_zero s => (s, 0)
        | _ => (false, 0)
        end in
      let frac := str (n mod scale) in
      ((if s then "-" else "") ++ str (n / scale) ++
       match digits with
       | O => ""
       | _ => "." ++ repeat_str "0" (digits - String.length frac) ++ frac
       end)%string
  end.

(** ** Dictionaries in insertion order *)

Definition dict : Type := list (string * Z).

Fixpoint dict_mem (k : string) (d : dict) : bool :=
  match d with
  | [] => false
  | (k', _) :: r => String.eqb k k' || dict_mem k r
  end.

(** [d[k]]. *)
Fixpoint dict_get (k : string) (d : dict) : result Z :=
  match d with
  | [] => Raise KeyError
  | (k', v) :: r => if String.eqb k k' then Ok v else dict_get k r
  end.

(** [d[k] = v]: a key that is present keeps its place, a new one goes last. *)
Fixpoint dict_set (k : string) (v : Z) (d : dict) : dict :=
  match d with
  | [] => [(k, v)]
  | (k', v') :: r =>
      if String.eqb k k' then (k', v) :: r else (k', v') :: dict_set k v r
  end.

(** ** Standard output *)

(** A computation that prints: the lines printed, in order, and how it
    ended. *)
Definition io (A : Type) : Type := (list string * result A)%type.

Definition io_ret {A : Type} (a : A) : io A := ([], Ok a).

Definition io_bind {A B : Type} (m : io A) (k : A -> io B) : io B :=
  match m with
  | (out, Ok a) => let '(out', r) := k a in (out ++ out', r)
  | (out, Raise e) => (out, Raise e)
  end.

Definition print (s : string) : io unit := ([s], Ok tt).

Definition lift {A : Type} (r : result A) : io A := ([], r).

Notation "'do*' x ':=' m 'in' k" := (io_bind m (fun x => k))
  (at level 10, x name, m at level 100, k at level 200).

(** ** The program *)

Record namespace : Type := {
  target : string;
  length : Z;
  human_readable : bool
}.

(** What [Popen(...).communicate()] gives back for a finished process. *)
Record completed : Type := {
  stdout : string;
  stderr : string;
  returncode : Z
}.

(** The part of the operating system the program talks to. *)
Record system : Type := {
  isdir : string -> bool;
  popen : list string -> completed
}.

Definition zero : float := S754_zero false.
Definition hundred : float := S754_finite false 7036874417766400 (-46).

(** [0 <= percent <= 100]. *)
Definition in_range (percent : float) : bool :=
  Float.leb zero percent && Float.leb percent hundred.

Definition percent_to_graph (percent : float) (total_chars : Z) : result string :=
  if negb (in_range percent) then Raise ValueError
  else
    let* scaled := Float.mul_int percent total_chars in
    let* ratio := Float.div_int scaled 100 in
    let* filled_chars := Float.round ratio in
    Ok (str_mul "=" filled_chars ++ str_mul " " (total_chars - filled_chars))%string.

(** The command line of the size-accounting process. *)
Definition du_command (location : string) : list string :=
  ["du"; "-d"; "1"; location]%string.

Definition call_du_sub (sys : system) (location : string) : list string :=
  let process := popen sys (du_command location) in
  filter nonempty (split_on "010"%char (stdout process)).

Fixpoint create_dir_dict_from (dir_dict : dict) (alist : list string) : result dict :=
  match alist with
  | [] => Ok dir_dict
  | line :: rest =>
      match split line with
      | size_token :: ((_ :: _) as path_tokens) =>
          let* size := int size_token in
          create_dir_dict_from (dict_set (join path_tokens) size dir_dict) rest
      | _ => create_dir_dict_from dir_dict rest
      end
  end.

Definition create_dir_dict (alist : list string) : result dict :=
  create_dir_dict_from [] alist.

Definition units : list string := ["B"; "K"; "M"; "G"; "T"; "P"]%string.

Definition kibi : float := S754_finite false 4503599627370496 (-42).

(** The [while] loop of [human_readable_size]; [steps] bounds the number of
    iterations, which the test [index < len(units) - 1] keeps below
    [len(units)]. *)
Fixpoint scale_loop (steps : nat) (size : float) (index : nat) : float * nat :=
  match steps with
  | O => (size, index)
  | S k =>
      if Float.leb kibi size && (index <? List.length units - 1)%nat
      then scale_loop k (Float.div size kibi) (S index)
      else (size, index)
  end.

Definition human_readable_size (size_bytes : Z) : result string :=
  let* size0 := Float.of_int size_bytes in
  let '(size, index) := scale_loop (List.length units) size0 0 in
  Ok (format_fixed 1 size ++ " " ++ nth index units "")%string.

(** [sorted(l, key=lambda x: x[1], reverse=True)]: the stable sort by
    decreasing value. *)
Fixpoint insert_desc (x : string * Z) (l : list (string * Z)) : list (string * Z) :=
  match l with
  | [] => [x]
  | y :: r => if snd x <? snd y then y :: insert_desc x r else x :: y :: r
  end.

Fixpoint sorted_desc (l : list (string * Z)) : list (string * Z) :=
  match l with
  | [] => []
  | x :: r => insert_desc x (sorted_desc r)
  end.

Definition size_string (human_readable : bool) (size : Z) : result string :=
  if human_readable then human_readable_size size else Ok (str size).

(** The body of the [for] loop of [print_directory_info] for an entry that
    is not the target. *)
Definition entry_line (total_size : Z) (human_readable : bool) (bar_length : Z)
    (entry : string * Z) : result string :=
  let '(dir_path, size) := entry in
  let* quotient := Float.int_truediv size total_size in
  let* percent := Float.mul_int quotient 100 in
  let* bar := percent_to_graph percent bar_length in
  let* size_str := size_string human_readable size in
  Ok (rjust 3 (format_fixed 0 percent) ++ " % [" ++ bar ++ "] " ++
      ljust 8 size_str ++ " " ++ dir_path)%string.

Fixpoint print_entries (total_size : Z) (target_dir : string)
    (human_readable : bool) (bar_length : Z) (sorted_dirs : list (string * Z))
    : io unit :=
  match sorted_dirs with
  | [] => io_ret tt
  | (dir_path, size) :: rest =>
      if String.eqb dir_path target_dir
      then print_entries total_size target_dir human_readable bar_length rest
      else
        do* line := lift (entry_line total_size human_readable bar_length (dir_path, size)) in
        do* _ := print line in
        print_entries total_size target_dir human_readable bar_length rest
  end.

Definition print_directory_info (dir_dict : dict) (total_size : Z)
    (target_dir : string) (human_readable : bool) (bar_length : Z) : io unit :=
  let sorted_dirs := sorted_desc dir_dict in
  do* _ := print_entries total_size target_dir human_readable bar_length sorted_dirs in
  do* total_str := lift (size_string human_readable total_size) in
  print ("Total: " ++ total_str ++ "   " ++ target_dir)%string.

(** How a run ends: [sys.exit(code)], or an exception nobody catches. *)
Inductive ending : Type :=
| Finished
| Exit (code : Z)
| Uncaught (e : exn).

Definition exit_code (e : ending) : Z :=
  match e with
  | Finished => 0
  | Exit code => code
  | Uncaught _ => 1
  end.

Definition main_body (sys : system) (args : namespace) : io unit :=
  let du_output := call_du_sub sys (target args) in
  do* dir_dict := lift (create_dir_dict du_output) in
  do* target_dir :=
    lift (if dict_mem (target args) dir_dict then Ok (target args)
          else
            match rev du_output with
            | [] => Raise IndexError
            | last_line :: _ => Ok (join (tl (split last_line)))
            end) in
  do* total_size := lift (dict_get target_dir dir_dict) in
  print_directory_info dir_dict total_size target_dir (human_readable args) (length args).

(** [main()] after the command line is parsed: what is printed and how the
    run ends. *)
Definition main (sys : system) (args : namespace) : list string * ending :=
  if negb (isdir sys (target args))
  then (["Error: " ++ target args ++ " is not a valid directory"]%string, Exit 1)
  else
    match main_body sys args with
    | (out, Ok _) => (out, Finished)
    | (out, Raise e) => (out, Uncaught e)
    end.

(** ** Notions used to state the properties *)

(** Where a stored pair comes from: a line of [alist] with two tokens or
    more, whose first token denotes the size and whose other tokens, joined,
    are the path. *)
Definition from_line (alist : list string) (x : string * Z) : Prop :=
  exists (line tok p : string) (ps : list string),
    In line alist /\ split line = tok :: p :: ps /\
    int tok = Ok (snd x) /\ fst x = join (p :: ps).


(** The test of the [for] loop: the entry is not the target itself. *)
Definition not_target (target_dir : string) (entry : string * Z) : bool :=
  negb (String.eqb (fst entry) target_dir).

(** The entries [print_directory_info] goes through, in the order of the
    loop, once those it skips are left out. *)
Definition shown_entries (dir_dict : dict) (target_dir : string) : list (string * Z) :=
  filter (not_target target_dir) (sorted_desc dir_dict).


(** ** Notions used to bound the float operations *)

(** 0 for an exact location, 1 otherwise. *)
Definition inexact (l : location) : Z :=
  match l with loc_Exact => 0 | loc_Inexact _ => 1 end.

(** [y] is [x] shifted right by [k] bits. *)
Definition shifted (k : Z) (x y : shr_record) : Prop :=
  shr_m y = shr_m x / 2 ^ k /\
  (loc_of_shr_record y = loc_Exact <->
   loc_of_shr_record x = loc_Exact /\ shr_m x mod 2 ^ k = 0).

Definition fexp : Z -> Z := SpecFloat.fexp prec emax.

(** [f] is finite and its magnitude is at most [K * 2^g]. *)
Definition bounded_by (K g : Z) (f : float) : Prop :=
  match f with
  | S754_zero _ => True
  | S754_finite _ m e => e <= g /\ Zpos m <= K * 2 ^ (g - e)
  | _ => False
  end.

Definition has_sign (s : bool) (f : float) : Prop :=
  match f with
  | S754_zero s' | S754_finite s' _ _ => s' = s
  | _ => False
  end.

(** [f] is a zero or a positive finite float. *)
Definition nonneg (f : float) : Prop :=
  match f with
  | S754_zero _ => True
  | S754_finite s _ _ => s = false
  | _ => False
  end.

(** ** Notions used to state the properties of the bar *)

(** [percent] is a number between 0 and 100, read on its exact value. *)
Definition within_range (percent : float) : Prop :=
  match percent with
  | S754_zero _ | S754_finite _ _ _ => (0 <= to_Q percent /\ to_Q percent <= 100)%Q
  | _ => False
  end.



(** Some floats: -1.0, 101.0, 12.5, 37.5 and 16.666666666666668
    (0x1.0aaaaaaaaaaabp+4). *)
Definition minus_one : float := S754_finite true 4503599627370496 (-52).
Definition hundred_one : float := S754_finite false 7107243161944064 (-46).
Definition twelve_half : float := S754_finite false 7036874417766400 (-49).
Definition thirty_seven_half : float := S754_finite false 5277655813324800 (-47).
Definition sixth_of_hundred : float := S754_finite false 4691249611844267 (-48).

(** ** Notions used to state the properties of the size format *)

(** [size] divided [n] times by 1024, each division rounded. *)
Fixpoint scaled (n : nat) (size : float) : float :=
  match n with
  | O => size
  | S k => scaled k (Float.div size kibi)
  end.

(** ** Sample runs *)

Definition LF : string := String "010" "".

(** [du] ends with status [code] after it printed the sizes of [./a] and
    of [.] itself and complained about a directory it could not read. *)
Definition du_partial (code : Z) : completed :=
  {| stdout := "4 ./a" ++ LF ++ "8 ." ++ LF;
     stderr := "du: cannot read directory './b': Permission denied" ++ LF;
     returncode := code |}.

Definition system_partial (code : Z) : system :=
  {| isdir := fun _ => true; popen := fun _ => du_partial code |}.

Definition args_here : namespace :=
  {| target := "."; length := 20; human_readable := false |}.

(** ** Notions used to state further properties *)

(** What a line stands for: nothing when it has fewer than two tokens, else
    its size token and its path. *)
Definition line_entry (line : string) : option (string * string) :=
  match split line with
  | size_token :: ((_ :: _) as path_tokens) => Some (size_token, join path_tokens)
  | _ => None
  end.

(** The keys of a dictionary, in its order. *)
Definition keys (d : dict) : list string := map fst d.

(** [lines], each followed by a line feed. *)
Fixpoint unlines (lines : list string) : string :=
  match lines with
  | [] => ""
  | line :: rest => line ++ LF ++ unlines rest
  end.

(** A token: not empty, no white space in it. *)
Definition is_token (t : string) : Prop :=
  t <> "" /\ all_chars (fun c => is_space c = false) t.

(** How [main] ends after [print_directory_info] ran. *)
Definition finish (run : io unit) : list string * ending :=
  match run with
  | (out, Ok _) => (out, Finished)
  | (out, Raise e) => (out, Uncaught e)
  end.

(** A system where every path is a directory and [du] prints [out]. *)
Definition system_printing (out : string) : system :=
  {| isdir := fun _ => true;
     popen := fun _ => {| stdout := out; stderr := ""; returncode := 0 |} |}.

(** ** The pipe in text mode *)

Definition CR : string := String "013" "".

(** The translation a pipe opened with [universal_newlines=True] applies to
    what it reads: CR LF and a CR alone become LF. *)
Fixpoint universal_newlines (printed : string) : string :=
  match printed with
  | EmptyString => ""
  | String "013" r =>
      String "010" match r with
                   | String "010" r' => universal_newlines r'
                   | _ => universal_newlines r
                   end
  | String c r => String c (universal_newlines r)
  end.

(** What [communicate()] returns for a process that printed [out] on its
    standard output and [err] on its standard error, both ASCII, and ended
    with the status [code]. *)
Definition communicate (out err : string) (code : Z) : completed :=
  {| stdout := universal_newlines out;
     stderr := universal_newlines err;
     returncode := code |}.

(** A system where every path is a directory and [du] prints [out]. *)
Definition system_running (out : string) : system :=
  {| isdir := fun _ => true; popen := fun _ => communicate out "" 0 |}.

(** A line of text: not empty, neither LF nor CR in it. *)
Definition is_line (line : string) : Prop :=
  line <> "" /\ count_char "010" line = O /\ count_char "013" line = O.

(** The three ends of a line: LF, CR, CR LF. *)
Definition is_newline (e : string) : Prop :=
  e = LF \/ e = CR \/ e = (CR ++ LF)%string.

(** Lines, each followed by its own end. *)
Fixpoint terminated (lines : list (string * string)) : string :=
  match lines with
  | [] => ""
  | (line, e) :: rest => (line ++ e ++ terminated rest)%string
  end.

(** ** The limit on conversions between integers and text *)

(** The interpreter converts an integer to decimal text, and decimal text
    to an integer, up to this number of digits
    ([sys.int_info.default_max_str_digits]); beyond it both [str] and [int]
    raise [ValueError].  The [str] and [int] above have no such limit: they
    stand for the interpreter's on the integers that are [convertible]. *)
Definition max_str_digits : Z := 4300.

Definition convertible (z : Z) : Prop := Z.abs z < 10 ^ max_str_digits.

(** ** Notions used to state what the report prints *)



(** * Properties *)

(** ** Bounds on the float operations *)

Section FloatBounds.

Lemma digits2_pos_size (p : positive) : digits2_pos p = Pos.size p.
Proof. induction p; simpl; congruence. Qed.

Lemma digits_lt (m : positive) : Zpos m < 2 ^ Zpos (digits2_pos m).
Proof.
  rewrite digits2_pos_size.
  pose proof (Pos.size_gt m) as H.
  apply Pos2Z.pos_lt_pos in H. now rewrite Pos2Z.inj_pow in H.
Qed.

Lemma digits_ge (m : positive) : 2 ^ (Zpos (digits2_pos m) - 1) <= Zpos m.
Proof.
  rewrite digits2_pos_size.
  pose proof (Pos.size_le m) as H.
  apply Pos2Z.pos_le_pos in H. rewrite Pos2Z.inj_pow in H.
  replace (Zpos (Pos.size m)) with (Z.succ (Zpos (Pos.size m) - 1)) in H by lia.
  rewrite Z.pow_succ_r in H by lia. lia.
Qed.

Lemma digits_le (m : positive) (k : Z) :
  Zpos m < 2 ^ k -> Zpos (digits2_pos m) <= k.
Proof.
  intros H. pose proof (digits_ge m) as Hge.
  destruct (Z.le_gt_cases (Zpos (digits2_pos m)) k) as [|Hgt]; auto.
  exfalso.
  destruct (Z.le_gt_cases 0 k) as [Hk|Hk].
  - assert (2 ^ k <= 2 ^ (Zpos (digits2_pos m) - 1))
      by (apply Z.pow_le_mono_r; lia). lia.
  - rewrite Z.pow_neg_r in H by lia. lia.
Qed.

Lemma shifted_1 (x : shr_record) : 0 <= shr_m x -> shifted 1 x (shr_1 x).
Proof.
  destruct x as [m r s]. cbn [shr_m]. intros Hm. unfold shifted.
  change (2 ^ 1) with 2.
  destruct m as [|p|p]; [| |lia].
  - cbn. split; auto. destruct r, s; cbn; intuition discriminate.
  - destruct p as [p|p|]; cbn [shr_1 shr_m loc_of_shr_record].
    + rewrite Pos2Z.inj_xI.
      split; [apply Z.div_unique with 1; lia|].
      assert ((2 * Zpos p + 1) mod 2 = 1) by (symmetry; apply Z.mod_unique with (Zpos p); lia).
      destruct (r || s); split; try discriminate; intros [_ ?]; lia.
    + rewrite Pos2Z.inj_xO.
      split; [apply Z.div_unique with 0; lia|].
      assert ((2 * Zpos p) mod 2 = 0) by (symmetry; apply Z.mod_unique with (Zpos p); lia).
      destruct r, s; cbn; intuition discriminate.
    + split; [reflexivity|].
      destruct (r || s); split; try discriminate; intros [_ ?]; discriminate.
Qed.

Lemma shifted_trans (a b : Z) (x y z : shr_record) :
  0 <= a -> 0 <= b -> 0 <= shr_m x ->
  shifted a x y -> shifted b y z -> shifted (a + b) x z.
Proof.
  intros Ha Hb Hx [Hy Hy'] [Hz Hz'].
  assert (H2a : 0 < 2 ^ a) by (apply Z.pow_pos_nonneg; lia).
  assert (H2b : 0 < 2 ^ b) by (apply Z.pow_pos_nonneg; lia).
  split.
  - rewrite Hz, Hy, Z.pow_add_r by lia. now rewrite Z.div_div by lia.
  - rewrite Hz', Hy', Hy.
    rewrite Z.pow_add_r by lia.
    rewrite Z.rem_mul_r by lia.
    pose proof (Z.mod_pos_bound (shr_m x) (2 ^ a) H2a).
    pose proof (Z.mod_pos_bound (shr_m x / 2 ^ a) (2 ^ b) H2b).
    split.
    + intros [[Hl H1] H2]. split; auto. rewrite H1, H2. lia.
    + intros [Hl H1]. repeat split; auto; nia.
Qed.

Lemma shifted_nonneg (k : Z) (x y : shr_record) :
  0 <= k -> 0 <= shr_m x -> shifted k x y -> 0 <= shr_m y.
Proof.
  intros Hk Hx [-> _]. apply Z.div_pos; auto. apply Z.pow_pos_nonneg; lia.
Qed.

Lemma shifted_iter (p : positive) :
  forall x, 0 <= shr_m x -> shifted (Zpos p) x (SpecFloat.iter_pos shr_1 p x).
Proof.
  assert (Hnn : forall k x y, 0 < k -> 0 <= shr_m x -> shifted k x y -> 0 <= shr_m y)
    by (intros k x y Hk; apply shifted_nonneg; lia).
  induction p as [p IH|p IH|]; intros x Hx; cbn [SpecFloat.iter_pos].
  - pose proof (shifted_1 x Hx) as H1.
    pose proof (Hnn 1 _ _ eq_refl Hx H1) as Hx1.
    pose proof (IH _ Hx1) as H2.
    pose proof (Hnn (Zpos p) _ _ eq_refl Hx1 H2) as Hx2.
    pose proof (IH _ Hx2) as H3.
    replace (Zpos p~1) with (1 + (Zpos p + Zpos p)) by lia.
    eapply shifted_trans; [lia|lia|auto|exact H1|].
    eapply shifted_trans; [lia|lia|auto|exact H2|exact H3].
  - pose proof (IH _ Hx) as H2.
    pose proof (Hnn (Zpos p) _ _ eq_refl Hx H2) as Hx2.
    pose proof (IH _ Hx2) as H3.
    replace (Zpos p~0) with (Zpos p + Zpos p) by lia.
    eapply shifted_trans; [lia|lia|auto|exact H2|exact H3].
  - now apply shifted_1.
Qed.

Lemma fexp_eq (e : Z) : fexp e = Z.max (e - 53) (-1074).
Proof. reflexivity. Qed.

Lemma loc_of_record_of_loc (m : Z) (l : location) :
  loc_of_shr_record (shr_record_of_loc m l) = l.
Proof. now destruct l as [|[]]. Qed.

Lemma shr_m_record_of_loc (m : Z) (l : location) :
  shr_m (shr_record_of_loc m l) = m.
Proof. now destruct l as [|[]]. Qed.

Lemma pow2_split (a b : Z) : 0 <= a -> 0 <= b -> 2 ^ (a + b) = 2 ^ a * 2 ^ b.
Proof. intros. now rewrite Z.pow_add_r. Qed.

Lemma pow2_pos (a : Z) : 0 <= a -> 0 < 2 ^ a.
Proof. intros. apply Z.pow_pos_nonneg; lia. Qed.

(** A mantissa below [K * 2^(g - e)] with [K < 2^53] has at most
    [53 + g - e] digits. *)
Lemma Zdigits2_bound (m e K g : Z) :
  0 <= m -> e <= g -> 0 <= K < 2 ^ 53 -> m <= K * 2 ^ (g - e) ->
  Zdigits2 m + e <= 53 + g.
Proof.
  intros Hm He HK Hle.
  destruct m as [|p|p]; cbn [Zdigits2]; [lia| |lia].
  assert (Zpos (digits2_pos p) <= 53 + (g - e)); [|lia].
  apply digits_le.
  rewrite pow2_split by lia.
  pose proof (pow2_pos (g - e) ltac:(lia)). nia.
Qed.

Lemma shr_fexp_upper (mx ex : Z) (lx : location) (K g : Z) :
  0 <= mx -> -1074 <= g -> 0 <= K < 2 ^ 53 -> ex <= g ->
  mx + inexact lx <= K * 2 ^ (g - ex) ->
  0 <= shr_m (fst (shr_fexp prec emax mx ex lx)) /\
  ex <= snd (shr_fexp prec emax mx ex lx) <= g /\
  shr_m (fst (shr_fexp prec emax mx ex lx)) +
    inexact (loc_of_shr_record (fst (shr_fexp prec emax mx ex lx)))
  <= K * 2 ^ (g - snd (shr_fexp prec emax mx ex lx)).
Proof.
  intros Hm Hg HK He Hle.
  assert (Hd : Zdigits2 mx + ex <= 53 + g).
  { apply Zdigits2_bound with K; auto. destruct lx; cbn [inexact] in Hle; lia. }
  unfold shr_fexp, shr.
  change (SpecFloat.fexp prec emax) with fexp. rewrite fexp_eq.
  set (n := Z.max (Zdigits2 mx + ex - 53) (-1074) - ex).
  assert (Hn : ex + n <= g) by lia.
  destruct n as [|p|p] eqn:En; cbn [fst snd];
    rewrite ?shr_m_record_of_loc, ?loc_of_record_of_loc; try (split; [lia|split; [lia|exact Hle]]).
  pose proof (shifted_iter p (shr_record_of_loc mx lx)) as Hs.
  unfold shifted in Hs.
  rewrite shr_m_record_of_loc, loc_of_record_of_loc in Hs.
  specialize (Hs Hm). destruct Hs as [Hq Hl].
  set (y := SpecFloat.iter_pos shr_1 p (shr_record_of_loc mx lx)) in *.
  pose proof (pow2_pos (Zpos p) ltac:(lia)) as HD.
  pose proof (pow2_pos (g - (ex + Zpos p)) ltac:(lia)) as HD'.
  replace (g - ex) with (g - (ex + Zpos p) + Zpos p) in Hle by lia.
  rewrite pow2_split in Hle by lia.
  set (K' := K * 2 ^ (g - (ex + Zpos p))) in *.
  assert (HK' : mx + inexact lx <= K' * 2 ^ Zpos p) by (unfold K'; lia).
  assert (Hlx : 0 <= inexact lx) by (destruct lx; cbn; lia).
  split; [rewrite Hq; apply Z.div_pos; lia|].
  split; [lia|].
  rewrite Hq.
  destruct (loc_of_shr_record y) eqn:Ey; cbn [inexact].
  - assert (mx / 2 ^ Zpos p <= K'); [|lia].
    apply Z.div_le_upper_bound; lia.
  - assert (mx / 2 ^ Zpos p < K'); [|lia].
    apply Z.div_lt_upper_bound; [lia|].
    destruct lx as [|c']; cbn [inexact] in HK'; [|lia].
    destruct (Z.eq_dec mx (2 ^ Zpos p * K')) as [Heq|]; [|lia].
    exfalso.
    assert (Hmod : mx mod 2 ^ Zpos p = 0).
    { rewrite Heq, Z.mul_comm. apply Z.mod_mul. lia. }
    assert (Hex : loc_Inexact c = loc_Exact)
      by (apply Hl; split; [reflexivity|exact Hmod]).
    discriminate.
Qed.

Lemma round_nearest_even_bounds (m : Z) (l : location) :
  m <= round_nearest_even m l <= m + inexact l.
Proof.
  destruct l as [|[]]; cbn [round_nearest_even inexact]; try lia.
  destruct (Z.even m); lia.
Qed.

Lemma inexact_nonneg (l : location) : 0 <= inexact l.
Proof. destruct l; cbn; lia. Qed.

(** Rounding does not step over a bound [K * 2^g] that is itself a float. *)
Lemma binary_round_aux_upper (s : bool) (mx ex : Z) (lx : location) (K g : Z) :
  0 <= mx -> -1074 <= g <= 971 -> 0 <= K < 2 ^ 53 -> ex <= g ->
  mx + inexact lx <= K * 2 ^ (g - ex) ->
  bounded_by K g (binary_round_aux prec emax s mx ex lx) /\
  has_sign s (binary_round_aux prec emax s mx ex lx).
Proof.
  intros Hm Hg HK He Hle.
  unfold binary_round_aux.
  destruct (shr_fexp_upper mx ex lx K g Hm ltac:(lia) HK He Hle) as (H1 & H2 & H3).
  destruct (shr_fexp prec emax mx ex lx) as [mrs' e'].
  cbn [fst snd] in H1, H2, H3.
  pose proof (round_nearest_even_bounds (shr_m mrs') (loc_of_shr_record mrs')) as Hr.
  set (m2 := round_nearest_even (shr_m mrs') (loc_of_shr_record mrs')) in *.
  assert (Hm2 : 0 <= m2) by lia.
  assert (Hle2 : m2 + inexact loc_Exact <= K * 2 ^ (g - e')) by (cbn [inexact]; lia).
  destruct (shr_fexp_upper m2 e' loc_Exact K g Hm2 ltac:(lia) HK ltac:(lia) Hle2)
    as (H4 & H5 & H6).
  destruct (shr_fexp prec emax m2 e' loc_Exact) as [mrs'' e''].
  cbn [fst snd] in H4, H5, H6.
  pose proof (inexact_nonneg (loc_of_shr_record mrs'')).
  destruct (shr_m mrs'') as [|m|m]; [cbn; auto| |lia].
  change (emax - prec) with 971.
  destruct (Z.leb_spec e'' 971); [|lia].
  cbn [bounded_by has_sign]. repeat split; lia.
Qed.

Lemma has_sign_nonneg (f : float) : has_sign false f -> nonneg f.
Proof. destruct f; cbn; auto. Qed.

Lemma iter_xO (d m : positive) : Zpos (Pos.iter xO m d) = Zpos m * 2 ^ Zpos d.
Proof.
  change (Pos.iter xO m d) with (shift_pos d m).
  rewrite shift_pos_correct, Zpower_pos_nat, Zpower_nat_Z, positive_nat_Z. lia.
Qed.

Lemma shl_align_spec (mx : positive) (ex ex' : Z) :
  snd (shl_align mx ex ex') <= ex /\
  Zpos (fst (shl_align mx ex ex')) = Zpos mx * 2 ^ (ex - snd (shl_align mx ex ex')).
Proof.
  unfold shl_align.
  destruct (ex' - ex) as [|d|d] eqn:E; cbn [fst snd].
  - rewrite Z.sub_diag. lia.
  - rewrite Z.sub_diag. lia.
  - rewrite iter_xO. replace (ex - ex') with (Zpos d) by lia. lia.
Qed.

(** [float(w)] does not exceed a bound that is a float. *)
Lemma of_int_upper (w K g : Z) :
  0 <= w <= K * 2 ^ g -> 0 <= g <= 971 -> 0 <= K < 2 ^ 53 ->
  exists f, of_int w = Ok f /\ bounded_by K g f /\ nonneg f.
Proof.
  intros Hw Hg HK. unfold of_int, binary_normalize.
  destruct w as [|m|m]; [exists (S754_zero false); cbn; auto| |lia].
  unfold binary_round.
  destruct (shl_align_spec m 0 (SpecFloat.fexp prec emax (Zpos (digits2_pos m) + 0)))
    as [He Hm].
  destruct (shl_align m 0 _) as [mz ez]. cbn [fst snd] in He, Hm.
  destruct (binary_round_aux_upper false (Zpos mz) ez loc_Exact K g) as [Hb Hs];
    try lia.
  { cbn [inexact]. rewrite Hm.
    replace (g - ez) with (g + (0 - ez)) by lia.
    rewrite pow2_split by lia.
    pose proof (pow2_pos (0 - ez) ltac:(lia)). nia. }
  destruct (binary_round_aux prec emax false (Zpos mz) ez loc_Exact) as [s|s| |s m' e'];
    cbn in Hb; try contradiction.
  - eexists; repeat split; cbn; auto.
  - eexists; repeat split; try apply Hb. exact Hs.
Qed.

Lemma mul_upper (x y : float) (K1 K2 g1 g2 : Z) :
  bounded_by K1 g1 x -> bounded_by K2 g2 y -> nonneg x -> nonneg y ->
  0 <= K1 -> 0 <= K2 -> K1 * K2 < 2 ^ 53 -> -1074 <= g1 + g2 <= 971 ->
  bounded_by (K1 * K2) (g1 + g2) (mul x y) /\ nonneg (mul x y).
Proof.
  intros Hx Hy Sx Sy HK1 HK2 HK Hg.
  destruct x as [sx|sx| |sx mx ex], y as [sy|sy| |sy my ey];
    cbn in Hx, Hy, Sx, Sy; try contradiction; try (cbn; auto; fail).
  subst sx sy. unfold mul, SFmul. cbn [xorb].
  destruct Hx as [Hex Hmx], Hy as [Hey Hmy].
  destruct (binary_round_aux_upper false (Zpos (mx * my)) (ex + ey) loc_Exact
              (K1 * K2) (g1 + g2)) as [Hb Hs]; try lia.
  - cbn [inexact]. rewrite Pos2Z.inj_mul.
    replace (g1 + g2 - (ex + ey)) with ((g1 - ex) + (g2 - ey)) by lia.
    rewrite pow2_split by lia.
    pose proof (pow2_pos (g1 - ex) ltac:(lia)).
    pose proof (pow2_pos (g2 - ey) ltac:(lia)). nia.
  - split; auto. now apply has_sign_nonneg.
Qed.

Lemma new_location_exact (nb k : Z) :
  new_location nb k = loc_Exact <-> k = 0.
Proof.
  unfold new_location, new_location_even, new_location_odd.
  destruct (Z.even nb), (Z.eqb_spec k 0); split; intros; try discriminate; auto; lia.
Qed.

(** What the core of the division computes: the integer quotient of the
    mantissas, once the dividend is shifted to the exponent [ez]. *)
Lemma SFdiv_core_binary_spec (mx my : positive) (ex ey : Z) :
  let r := SFdiv_core_binary prec emax (Zpos mx) ex (Zpos my) ey in
  let ez := snd (fst r) in
  ez = Z.min (fexp (Zpos (digits2_pos mx) + ex - (Zpos (digits2_pos my) + ey))) (ex - ey) /\
  fst (fst r) = (Zpos mx * 2 ^ (ex - ey - ez)) / Zpos my /\
  (snd r = loc_Exact <-> (Zpos mx * 2 ^ (ex - ey - ez)) mod Zpos my = 0).
Proof.
  unfold SFdiv_core_binary. cbn [Zdigits2].
  change (SpecFloat.fexp prec emax) with fexp.
  set (ez := Z.min _ _).
  set (s := ex - ey - ez).
  assert (Hs : 0 <= s) by (unfold s, ez; lia).
  set (m' := match s with Z.pos _ => Z.shiftl (Zpos mx) s | 0 => Zpos mx | Z.neg _ => 0 end).
  assert (Hm' : m' = Zpos mx * 2 ^ s).
  { unfold m'. destruct s as [|p|p] eqn:Es; [lia| |lia].
    now rewrite Z.shiftl_mul_pow2 by lia. }
  assert (Hq : fst (Z.div_eucl m' (Zpos my)) = m' / Zpos my) by reflexivity.
  assert (Hr : snd (Z.div_eucl m' (Zpos my)) = m' mod Zpos my) by reflexivity.
  destruct (Z.div_eucl m' (Zpos my)) as [q r].
  cbn [fst snd] in *. fold s. rewrite <- Hm', <- Hq, <- Hr.
  repeat split; auto; apply new_location_exact.
Qed.

Lemma pow2_le_cancel (a b t : Z) :
  0 <= t -> a * 2 ^ t <= b * 2 ^ t -> a <= b.
Proof. intros Ht H. pose proof (pow2_pos t Ht). nia. Qed.

(** Division does not step over a bound that is a float: when
    [x / y <= K * 2^g], the rounded quotient is at most [K * 2^g]. *)
Lemma div_upper (sx sy : bool) (mx my : positive) (ex ey K g : Z) :
  ey <= 0 -> ex <= g -> -1074 <= g <= 971 -> 0 <= K < 2 ^ 53 ->
  Zpos mx * 2 ^ (- ey) <= Zpos my * K * 2 ^ (g - ex) ->
  let q := div (S754_finite sx mx ex) (S754_finite sy my ey) in
  bounded_by K g q /\ has_sign (xorb sx sy) q.
Proof.
  intros Hey Hex Hg HK Hle. unfold div, SFdiv.
  destruct (SFdiv_core_binary_spec mx my ex ey) as (Hez & Hq & Hl).
  destruct (SFdiv_core_binary prec emax (Zpos mx) ex (Zpos my) ey) as [[mz ez] lz].
  cbn [fst snd] in Hez, Hq, Hl.
  pose proof (digits_ge mx) as Hd1. pose proof (digits_lt my) as Hd2.
  set (d1 := Zpos (digits2_pos mx)) in *. set (d2 := Zpos (digits2_pos my)) in *.
  assert (Hd1' : 0 < d1) by (unfold d1; lia).
  assert (Hd2' : 0 < d2) by (unfold d2; lia).
  (* the exponent of the quotient is at most g *)
  assert (Hdd : d1 + ex - (d2 + ey) <= 53 + g).
  { assert (H : 2 ^ (d1 - 1 - ey) < 2 ^ (d2 + 53 + (g - ex))).
    { replace (d1 - 1 - ey) with ((d1 - 1) + (- ey)) by lia.
      rewrite !pow2_split by lia.
      pose proof (pow2_pos (- ey) ltac:(lia)).
      pose proof (pow2_pos (g - ex) ltac:(lia)).
      pose proof (pow2_pos (d1 - 1) ltac:(lia)).
      pose proof (pow2_pos d2 ltac:(lia)).
      assert (Zpos my * K < 2 ^ d2 * 2 ^ 53) by nia.
      nia. }
    apply Z.pow_lt_mono_r_iff in H; lia. }
  assert (Hezg : ez <= g) by (rewrite Hez, fexp_eq; lia).
  assert (Hs : 0 <= ex - ey - ez) by lia.
  set (m' := Zpos mx * 2 ^ (ex - ey - ez)) in *.
  set (K' := K * 2 ^ (g - ez)).
  assert (Hm' : m' <= Zpos my * K').
  { unfold m', K'.
    destruct (Z.le_gt_cases ex ez) as [Ht|Ht].
    - apply pow2_le_cancel with (ez - ex); [lia|].
      rewrite <- !Z.mul_assoc, <- !pow2_split by lia.
      replace (ex - ey - ez + (ez - ex)) with (- ey) by lia.
      replace (g - ez + (ez - ex)) with (g - ex) by lia. lia.
    - replace (ex - ey - ez) with (- ey + (ex - ez)) by lia.
      replace (g - ez) with (g - ex + (ex - ez)) by lia.
      rewrite !pow2_split by lia.
      pose proof (pow2_pos (ex - ez) ltac:(lia)). nia. }
  assert (HK' : 0 <= K') by (unfold K'; pose proof (pow2_pos (g - ez) ltac:(lia)); nia).
  assert (Hm'0 : 0 <= m') by (unfold m'; pose proof (pow2_pos _ Hs); nia).
  apply binary_round_aux_upper; auto.
  - rewrite Hq. apply Z.div_pos; lia.
  - fold K'. rewrite Hq.
    destruct lz as [|c]; cbn [inexact].
    + assert (m' / Zpos my <= K'); [|lia]. apply Z.div_le_upper_bound; lia.
    + assert (m' / Zpos my < K'); [|lia]. apply Z.div_lt_upper_bound; [lia|].
      destruct (Z.eq_dec m' (Zpos my * K')) as [Heq|]; [|lia].
      assert (Hmod : m' mod Zpos my = 0)
        by (rewrite Heq, Z.mul_comm; apply Z.mod_mul; lia).
      apply Hl in Hmod. discriminate.
Qed.

Lemma div_half_even_upper (m d K : Z) :
  0 <= m -> 0 < d -> m <= K * d -> 0 <= div_half_even m d <= K.
Proof.
  intros Hm Hd Hle. unfold div_half_even.
  pose proof (Z.div_pos m d Hm Hd) as Hq.
  pose proof (Z.mod_pos_bound m d Hd) as Hr.
  pose proof (Z.div_mod m d ltac:(lia)) as Hdm.
  assert (Hq' : m / d <= K) by (apply Z.div_le_upper_bound; lia).
  assert (Hlt : 0 < m mod d -> m / d < K).
  { intros H. apply Z.div_lt_upper_bound; [lia|].
    destruct (Z.eq_dec m (d * K)) as [Heq|]; [|lia].
    rewrite Heq, Z.mul_comm, Z.mod_mul in H; lia. }
  destruct (Z.compare_spec (2 * (m mod d)) d); [destruct (Z.even (m / d))| |]; lia.
Qed.

(** [round] of a float between 0 and the integer [K] is between 0 and [K]. *)
Lemma round_upper (f : float) (K : Z) :
  0 <= K -> bounded_by K 0 f -> nonneg f ->
  exists k, round f = Ok k /\ 0 <= k <= K.
Proof.
  intros HK Hb Hs.
  destruct f as [s|s| |s m e]; cbn in Hb, Hs; try contradiction.
  - exists 0. split; [reflexivity|lia].
  - subst s. destruct Hb as [He Hm]. cbn [round cond_Zopp].
    eexists; split; [reflexivity|].
    unfold nearest_int. destruct e as [|p|p]; [|lia|].
    + cbn [Z.sub Z.opp] in Hm. change (2 ^ 0) with 1 in *. lia.
    + apply div_half_even_upper; [lia|apply pow2_pos; lia|].
      now replace (0 - Z.neg p) with (Zpos p) in Hm by lia.
Qed.


Lemma is_float_mantissa (s : bool) (m : positive) (e : Z) :
  is_float (S754_finite s m e) ->
  Zpos m < 2 ^ 53 /\ -1074 <= e <= 971 /\ (-1074 < e -> 2 ^ 52 <= Zpos m).
Proof.
  unfold is_float, valid_binary, bounded, canonical_mantissa.
  change (SpecFloat.fexp prec emax) with fexp. rewrite fexp_eq.
  change (emax - prec) with 971.
  intros H. apply andb_true_iff in H. destruct H as [H1 H2].
  apply Z.eqb_eq in H1. apply Z.leb_le in H2.
  pose proof (digits_lt m) as Hlt. pose proof (digits_ge m) as Hge.
  set (d := Zpos (digits2_pos m)) in *.
  assert (Hd : 0 < d) by (unfold d; lia).
  split; [|split; [lia|]].
  - assert (2 ^ d <= 2 ^ 53) by (apply Z.pow_le_mono_r; lia). lia.
  - intros He. replace (d - 1) with 52 in Hge by lia. exact Hge.
Qed.

Lemma compare_cont_Eq_spec (m c : positive) :
  CompareSpec (Zpos m = Zpos c) (Zpos m < Zpos c) (Zpos c < Zpos m)
              (Pos.compare_cont Eq m c).
Proof.
  pose proof (Pos.compare_spec m c) as Hc. unfold Pos.compare in Hc.
  destruct Hc; constructor; lia.
Qed.

Lemma in_range_finite (s : bool) (m : positive) (e : Z) :
  in_range (S754_finite s m e) = true <->
  s = false /\ (e < -46 \/ e = -46 /\ Zpos m <= 7036874417766400).
Proof.
  unfold in_range, leb, SFleb, zero, hundred. cbn [SFcompare].
  destruct s; cbn [andb].
  - split; [discriminate|intros [? _]; discriminate].
  - destruct (Z.compare_spec e (-46)) as [He|He|He].
    + destruct (compare_cont_Eq_spec m 7036874417766400) as [Hm|Hm|Hm];
        (split; [try discriminate; intros _|try reflexivity; intros [_ [H|[_ H]]]]); try lia.
      all: split; [reflexivity|lia].
    + split; [intros _|reflexivity]. split; [reflexivity|]. left. exact He.
    + split; [discriminate|]. intros [_ [H|[H _]]]; lia.
Qed.

Lemma in_range_bounded (p : float) :
  is_float p -> in_range p = true -> bounded_by 100 0 p /\ nonneg p.
Proof.
  intros Hf Hr.
  destruct p as [s|s| |s m e]; try (destruct s; discriminate); try discriminate.
  - cbn; auto.
  - apply in_range_finite in Hr. destruct Hr as [-> Hr].
    destruct (is_float_mantissa _ _ _ Hf) as (Hm & _ & _).
    cbn [bounded_by nonneg]. split; [|reflexivity].
    split; [lia|].
    destruct Hr as [He|[-> Hle]].
    + assert (2 ^ 47 <= 2 ^ (0 - e)) by (apply Z.pow_le_mono_r; lia).
      change (2 ^ 47) with 140737488355328 in *. change (2 ^ 53) with 9007199254740992 in *. lia.
    + change (2 ^ (0 - -46)) with 70368744177664. lia.
Qed.

Lemma of_int_100 : of_int 100 = Ok hundred.
Proof. reflexivity. Qed.

(** For a percentage in range and a width [w] with [100 * w < 2^53], the
    three float operations of [percent_to_graph] succeed and the count of
    filled characters lies between 0 and [w]. *)
Lemma filled_chars_bounds (p : float) (w : Z) :
  is_float p -> in_range p = true -> 0 <= w -> 100 * w < 2 ^ 53 ->
  exists x y k,
    mul_int p w = Ok x /\ div_int x 100 = Ok y /\ round y = Ok k /\ 0 <= k <= w.
Proof.
  intros Hf Hr Hw Hw'.
  destruct (in_range_bounded p Hf Hr) as [Hb Hs].
  destruct (of_int_upper w w 0) as (fw & Ew & Hbw & Hsw); try lia.
  destruct (mul_upper p fw 100 w 0 0 Hb Hbw Hs Hsw) as [Hbx Hsx]; try lia.
  change (0 + 0) with 0 in Hbx.
  set (x := mul p fw) in *.
  assert (Hy : bounded_by w 0 (div x hundred) /\ nonneg (div x hundred)).
  { destruct x as [s|s| |s mx ex]; cbn [bounded_by nonneg] in Hbx, Hsx;
      try contradiction.
    - unfold div, hundred. cbn [SFdiv bounded_by nonneg]. auto.
    - subst s. destruct Hbx as [Hex Hmx]. unfold hundred.
      destruct (div_upper false false mx 7036874417766400 ex (-46) w 0) as [H1 H2];
        try lia.
      split; auto. now apply has_sign_nonneg. }
  destruct Hy as [Hby Hsy].
  destruct (round_upper _ w Hw Hby Hsy) as (k & Ek & Hk).
  exists x, (div x hundred), k.
  unfold mul_int, div_int. rewrite Ew. cbn [bind].
  change (100 =? 0) with false. cbv iota. rewrite of_int_100. cbn [bind].
  auto.
Qed.

End FloatBounds.

(** ** The parser: [create_dir_dict] *)

Section Parser.

Lemma int_raises_ValueError (s : string) (e : exn) :
  int s = Raise e -> e = ValueError.
Proof.
  unfold int.
  destruct (match s with
            | String "+" r => digits_val 0 false r
            | String "-" r => option_map Z.opp (digits_val 0 false r)
            | _ => digits_val 0 false s
            end); congruence.
Qed.

Lemma int_not_integer (s : string) :
  (forall z, int s <> Ok z) -> int s = Raise ValueError.
Proof.
  intros H. destruct (int s) as [z|e] eqn:E.
  - now destruct (H z).
  - now rewrite (int_raises_ValueError _ _ E).
Qed.

Lemma create_dir_dict_from_raises (alist : list string) :
  forall (d : dict) (e : exn),
    create_dir_dict_from d alist = Raise e -> e = ValueError.
Proof.
  induction alist as [|line rest IH]; intros d e; simpl.
  - discriminate.
  - destruct (split line) as [|tok [|p ps]]; eauto.
    destruct (int tok) as [z|e'] eqn:E; simpl; eauto.
    intros [= <-]. eapply int_raises_ValueError; eauto.
Qed.

(** A line of two tokens or more whose first token is not an integer makes
    the loop fail, wherever the line stands and whatever was stored. *)
Lemma create_dir_dict_from_bad_line (alist : list string)
    (line tok p : string) (ps : list string) :
  In line alist ->
  split line = tok :: p :: ps ->
  int tok = Raise ValueError ->
  forall d, create_dir_dict_from d alist = Raise ValueError.
Proof.
  intros Hin Hsplit Hint.
  induction alist as [|l rest IH]; [destruct Hin|].
  intros d; simpl.
  destruct Hin as [->|Hin].
  - rewrite Hsplit, Hint. reflexivity.
  - destruct (split l) as [|tok' [|p' ps']]; auto.
    destruct (int tok') as [z|e] eqn:E; simpl; auto.
    now rewrite (int_raises_ValueError _ _ E).
Qed.

Lemma in_dict_set (k : string) (v : Z) (d : dict) (x : string * Z) :
  In x (dict_set k v d) -> x = (k, v) \/ In x d.
Proof.
  induction d as [|[k' v'] r IH]; simpl.
  - intros [<-|[]]. now left.
  - destruct (String.eqb_spec k k') as [->|Hne]; simpl.
    + intros [<-|H]; auto.
    + intros [<-|H]; auto. destruct (IH H); auto.
Qed.

Lemma create_dir_dict_from_origin (all : list string) (alist : list string) :
  (forall l, In l alist -> In l all) ->
  forall d d',
    Forall (from_line all) d ->
    create_dir_dict_from d alist = Ok d' ->
    Forall (from_line all) d'.
Proof.
  induction alist as [|line rest IH]; intros Hsub d d' Hd; simpl.
  - now intros [= <-].
  - assert (Hrest : forall l, In l rest -> In l all) by (intros; apply Hsub; now right).
    destruct (split line) as [|tok [|p ps]] eqn:Hs; eauto.
    destruct (int tok) as [z|e] eqn:E; simpl; [|discriminate].
    apply IH; auto.
    apply Forall_forall. intros x Hx.
    destruct (in_dict_set _ _ _ _ Hx) as [->|Hin].
    + exists line, tok, p, ps. repeat split; auto. apply Hsub. now left.
    + rewrite Forall_forall in Hd. auto.
Qed.

End Parser.

(** ** The report: order and selection of the entries *)

Section Report.

Lemma insert_desc_perm (x : string * Z) (l : list (string * Z)) :
  Permutation (insert_desc x l) (x :: l).
Proof.
  induction l as [|y r IH]; simpl; auto.
  destruct (snd x <? snd y); auto.
  rewrite IH. apply perm_swap.
Qed.

Lemma sorted_desc_perm (l : list (string * Z)) : Permutation (sorted_desc l) l.
Proof.
  induction l as [|x r IH]; simpl; auto.
  rewrite insert_desc_perm. now constructor.
Qed.








Lemma print_entries_skip (total_size : Z) (target_dir : string) (hr : bool)
    (w : Z) (l : list (string * Z)) :
  print_entries total_size target_dir hr w l =
  print_entries total_size target_dir hr w (filter (not_target target_dir) l).
Proof.
  induction l as [|[p s] r IH]; simpl; auto.
  unfold not_target at 1. simpl.
  destruct (String.eqb p target_dir) eqn:E; simpl; auto.
  rewrite E, IH. reflexivity.
Qed.

End Report.

Section Strings.

Lemma append_assoc (a b c : string) : ((a ++ b) ++ c = a ++ (b ++ c))%string.
Proof. induction a as [|x a IH]; simpl; congruence. Qed.

Lemma length_app (a b : string) :
  String.length (a ++ b) = (String.length a + String.length b)%nat.
Proof. induction a as [|c a IH]; simpl; auto. Qed.

Lemma count_char_app (c : ascii) (a b : string) :
  count_char c (a ++ b) = (count_char c a + count_char c b)%nat.
Proof.
  induction a as [|x a IH]; simpl; auto.
  destruct (Ascii.eqb x c); simpl; auto.
Qed.

Lemma all_chars_app (P : ascii -> Prop) (a b : string) :
  all_chars P a -> all_chars P b -> all_chars P (a ++ b).
Proof. induction a as [|x a IH]; simpl; intuition. Qed.

Lemma repeat_char_length (c : ascii) (n : nat) :
  String.length (repeat_str (String c "") n) = n.
Proof. induction n as [|n IH]; simpl; auto. Qed.

Lemma repeat_char_count (c x : ascii) (n : nat) :
  count_char c (repeat_str (String x "") n) = if Ascii.eqb x c then n else O.
Proof.
  induction n as [|n IH]; simpl.
  - now destruct (Ascii.eqb x c).
  - rewrite IH. now destruct (Ascii.eqb x c).
Qed.

Lemma repeat_char_all (P : ascii -> Prop) (c : ascii) (n : nat) :
  P c -> all_chars P (repeat_str (String c "") n).
Proof. intros Hc. induction n as [|n IH]; simpl; auto. Qed.

(** The shape of a bar of [k] filled characters in a width of [w]. *)
Lemma bar_shape (k w : Z) :
  0 <= k <= w ->
  let bar := (str_mul "=" k ++ str_mul " " (w - k))%string in
  str_len bar = w /\
  all_chars (fun c => c = "="%char \/ c = " "%char) bar /\
  Z.of_nat (count_char "=" bar) = k.
Proof.
  intros Hk bar. unfold bar, str_len, str_mul.
  rewrite length_app, count_char_app, !repeat_char_length, !repeat_char_count.
  split; [|split].
  - lia.
  - apply all_chars_app; apply repeat_char_all; auto.
  - cbn [Ascii.eqb Bool.eqb]. lia.
Qed.

End Strings.

Section Bar.

Lemma shr_nonneg (mrs : shr_record) (e n : Z) :
  0 <= shr_m mrs -> 0 <= shr_m (fst (shr mrs e n)).
Proof.
  intros H. unfold shr. destruct n as [|p|p]; cbn [fst]; auto.
  pose proof (shifted_iter p mrs H) as [Hq _]. rewrite Hq.
  apply Z.div_pos; auto. apply Z.pow_pos_nonneg; lia.
Qed.

Lemma shr_fexp_nonneg (m e : Z) (l : location) :
  0 <= m -> 0 <= shr_m (fst (shr_fexp prec emax m e l)).
Proof.
  intros H. unfold shr_fexp. apply shr_nonneg. now rewrite shr_m_record_of_loc.
Qed.

(** Rounding a mantissa that is not negative never gives a NaN. *)
Lemma binary_round_aux_not_nan (s : bool) (mx ex : Z) (lx : location) :
  0 <= mx -> binary_round_aux prec emax s mx ex lx <> S754_nan.
Proof.
  intros Hm. unfold binary_round_aux.
  pose proof (shr_fexp_nonneg mx ex lx Hm) as H1.
  destruct (shr_fexp prec emax mx ex lx) as [mrs' e']. cbn [fst] in H1.
  pose proof (round_nearest_even_bounds (shr_m mrs') (loc_of_shr_record mrs')) as Hr.
  pose proof (shr_fexp_nonneg (round_nearest_even (shr_m mrs') (loc_of_shr_record mrs'))
                e' loc_Exact ltac:(lia)) as H2.
  destruct (shr_fexp prec emax _ e' loc_Exact) as [mrs'' e'']. cbn [fst] in H2.
  destruct (shr_m mrs'') as [|m|m]; [discriminate| |lia].
  destruct (e'' <=? emax - prec); discriminate.
Qed.

Lemma of_int_not_nan (z : Z) (f : float) : of_int z = Ok f -> f <> S754_nan.
Proof.
  unfold of_int, binary_normalize, binary_round.
  destruct z as [|m|m].
  - intros [= <-]. discriminate.
  - destruct (shl_align m 0 _) as [mz ez].
    pose proof (binary_round_aux_not_nan false (Zpos mz) ez loc_Exact ltac:(lia)) as H.
    destruct (binary_round_aux prec emax false (Zpos mz) ez loc_Exact);
      intros [= <-]; auto.
  - destruct (shl_align m 0 _) as [mz ez].
    pose proof (binary_round_aux_not_nan true (Zpos mz) ez loc_Exact ltac:(lia)) as H.
    destruct (binary_round_aux prec emax true (Zpos mz) ez loc_Exact);
      intros [= <-]; auto.
Qed.

Lemma of_int_not_infinity (z : Z) (f : float) (s : bool) :
  of_int z = Ok f -> f <> S754_infinity s.
Proof.
  unfold of_int. destruct (binary_normalize prec emax z 0 false); intros [= <-]; discriminate.
Qed.

(** A percentage in range is a zero or a positive finite float. *)
Lemma in_range_nonneg (p : float) : in_range p = true -> nonneg p.
Proof.
  destruct p as [s|s| |s m e]; try (destruct s; discriminate); try discriminate.
  - intros _. exact I.
  - intros H. apply in_range_finite in H. apply H.
Qed.

Lemma mul_not_nan (x y : float) :
  nonneg x -> y <> S754_nan -> (forall s, y <> S754_infinity s) ->
  mul x y <> S754_nan.
Proof.
  intros Hx Hy Hy'.
  destruct x as [sx|sx| |sx mx ex]; cbn in Hx; try contradiction;
    destruct y as [sy|sy| |sy my ey]; try congruence; try discriminate.
  unfold mul, SFmul. apply binary_round_aux_not_nan. lia.
Qed.

Lemma div_hundred_not_nan (x : float) : x <> S754_nan -> div x hundred <> S754_nan.
Proof.
  intros Hx. destruct x as [sx|sx| |sx mx ex]; try congruence; try discriminate.
  unfold div, hundred, SFdiv.
  destruct (SFdiv_core_binary_spec mx 7036874417766400 ex (-46)) as (_ & Hq & _).
  destruct (SFdiv_core_binary prec emax (Zpos mx) ex (Zpos 7036874417766400) (-46))
    as [[mz ez] lz].
  cbn [fst snd] in Hq.
  apply binary_round_aux_not_nan. rewrite Hq.
  apply Z.div_pos; [|lia].
  apply Z.mul_nonneg_nonneg; [lia|]. apply Z.pow_nonneg. lia.
Qed.

(** In range, the renderer returns a bar or overflows; it raises no
    [ValueError]. *)
Lemma percent_to_graph_in_range (p : float) (w : Z) :
  in_range p = true -> percent_to_graph p w <> Raise ValueError.
Proof.
  intros Hr. unfold percent_to_graph. rewrite Hr. cbn [negb].
  unfold mul_int, div_int.
  destruct (of_int w) as [fw|e] eqn:Ew; cbn [bind].
  2: { pose proof Ew as Ew'. unfold of_int in Ew'.
       destruct (binary_normalize prec emax w 0 false); congruence. }
  change (100 =? 0) with false. cbv iota. rewrite of_int_100. cbn [bind].
  pose proof (mul_not_nan p fw (in_range_nonneg p Hr) (of_int_not_nan _ _ Ew)
                (fun s => of_int_not_infinity _ _ s Ew)) as Hx.
  pose proof (div_hundred_not_nan _ Hx) as Hy.
  destruct (div (mul p fw) hundred); cbn [round bind]; congruence.
Qed.

(** The test [0 <= percent <= 100] read on exact values. *)
Lemma in_range_exact (p : float) :
  is_float p ->
  in_range p = true <-> within_range p.
Proof.
  intros Hf. unfold within_range.
  destruct p as [s|s| |s m e].
  - split; [intros _|reflexivity]. cbn. split; [apply Qle_refl|]. unfold Qle; cbn; lia.
  - split; [destruct s; discriminate|tauto].
  - split; [discriminate|tauto].
  - rewrite in_range_finite.
    destruct (is_float_mantissa _ _ _ Hf) as (Hm & He & Hn).
    unfold to_Q.
    change (2 ^ 53) with 9007199254740992 in Hm.
    change (2 ^ 52) with 4503599627370496 in Hn.
    destruct s.
    + split; [intros [? _]; discriminate|].
      intros [H _]. exfalso. revert H.
      destruct e as [|q|q]; unfold Qle, inject_Z, Qopp; cbn [Qnum Qden]; lia.
    + destruct e as [|q|q].
      * unfold Qle, inject_Z; cbn [Qnum Qden]. rewrite Z.pow_0_r. lia.
      * unfold Qle, inject_Z; cbn [Qnum Qden].
        assert (H2 : 0 < 2 ^ Zpos q) by (apply Z.pow_pos_nonneg; lia).
        split; [lia|]. intros [_ H]. assert (H1 : -1074 < Zpos q) by lia.
        specialize (Hn H1). nia.
      * unfold Qle; cbn [Qnum Qden]. rewrite Pos2Z.inj_pow.
        assert (H2 : 0 < 2 ^ Zpos q) by (apply Z.pow_pos_nonneg; lia).
        split.
        -- intros [_ [Hlt|[Heq Hle]]].
           ++ split; [lia|].
              assert (H3 : 2 ^ 47 <= 2 ^ Zpos q) by (apply Z.pow_le_mono_r; lia).
              change (2 ^ 47) with 140737488355328 in H3. lia.
           ++ injection Heq as ->. change (2 ^ 46) with 70368744177664. lia.
        -- intros [_ H]. split; [reflexivity|].
           destruct (Z.lt_trichotomy (Zpos q) 46) as [Hlt|[Heq|Hgt]].
           ++ exfalso.
              assert (H3 : 2 ^ Zpos q <= 2 ^ 45) by (apply Z.pow_le_mono_r; lia).
              change (2 ^ 45) with 35184372088832 in H3.
              assert (H1 : -1074 < Z.neg q) by lia. specialize (Hn H1). lia.
           ++ right. assert (q = 46%positive) by lia. subst q.
              change (2 ^ 46) with 70368744177664 in H. split; [reflexivity|lia].
           ++ left. lia.
Qed.

End Bar.

(** * The claims *)

Section BarClaims.


(** C2 (as amended).  For every float [percent] between 0 and 100 and every
    width from 0 to 90071992547409 (so that 100 times the width is an exact
    float), [percent_to_graph] returns a bar whose length is the width, made
    of '=' and ' ' only, the '=' first; the number of '=' is the binary64
    value of [percent * total_chars / 100] rounded to an integer, ties to
    even, and lies between 0 and the width. *)
Theorem percent_to_graph_bar (percent : float) (total_chars : Z) :
  is_float percent -> within_range percent ->
  0 <= total_chars <= 90071992547409 ->
  exists (scaled ratio : float) (filled_chars : Z),
    Float.mul_int percent total_chars = Ok scaled /\
    Float.div_int scaled 100 = Ok ratio /\
    Float.round ratio = Ok filled_chars /\
    0 <= filled_chars <= total_chars /\
    percent_to_graph percent total_chars =
      Ok (str_mul "=" filled_chars ++ str_mul " " (total_chars - filled_chars))%string /\
    str_len (str_mul "=" filled_chars ++ str_mul " " (total_chars - filled_chars)) =
      total_chars /\
    all_chars (fun c => c = "="%char \/ c = " "%char)
      (str_mul "=" filled_chars ++ str_mul " " (total_chars - filled_chars)) /\
    Z.of_nat (count_char "="
      (str_mul "=" filled_chars ++ str_mul " " (total_chars - filled_chars))) =
      filled_chars.
Proof.
  intros Hf Hw Hc.
  apply (in_range_exact percent Hf) in Hw.
  destruct (filled_chars_bounds percent total_chars Hf Hw) as (x & y & k & Hx & Hy & Hk & Hb).
  - lia.
  - change (2 ^ 53) with 9007199254740992. lia.
  - exists x, y, k.
    destruct (bar_shape k total_chars Hb) as (H1 & H2 & H3).
    repeat (split; [assumption || lia|]).
    split; [|auto].
    unfold percent_to_graph. rewrite Hw, Hx. cbn [negb bind].
    rewrite Hy. cbn [bind]. rewrite Hk. reflexivity.
Qed.

Lemma percent_to_graph_bar_witness :
  exists (scaled ratio : float) (filled_chars : Z),
    Float.mul_int twelve_half 20 = Ok scaled /\
    Float.div_int scaled 100 = Ok ratio /\
    Float.round ratio = Ok filled_chars /\
    0 <= filled_chars <= 20 /\
    percent_to_graph twelve_half 20 =
      Ok (str_mul "=" filled_chars ++ str_mul " " (20 - filled_chars))%string /\
    str_len (str_mul "=" filled_chars ++ str_mul " " (20 - filled_chars)) = 20 /\
    all_chars (fun c => c = "="%char \/ c = " "%char)
      (str_mul "=" filled_chars ++ str_mul " " (20 - filled_chars)) /\
    Z.of_nat (count_char "=" (str_mul "=" filled_chars ++ str_mul " " (20 - filled_chars))) =
      filled_chars.
Proof.
  apply (percent_to_graph_bar twelve_half 20).
  - reflexivity.
  - unfold within_range, twelve_half, to_Q, Qle; cbn [Qnum Qden]. split; vm_compute; discriminate.
  - lia.
Defined.

(** C2 fails as stated: a width of 2^1024 is not converted to a float, so
    that no bar is returned; and for the percentage 16.666666666666668 and
    the width 3 the bar has no '=' although the exact value of
    [percent * 3 / 100] lies above 1/2, nearest to 1. *)
Lemma percent_to_graph_counterexample :
  percent_to_graph hundred (2 ^ 1024) = Raise OverflowError /\
  is_float sixth_of_hundred /\ within_range sixth_of_hundred /\
  percent_to_graph sixth_of_hundred 3 = Ok "   " /\
  (1 # 2 < to_Q sixth_of_hundred * 3 / 100)%Q /\
  (to_Q sixth_of_hundred * 3 / 100 < 3 # 2)%Q.
Proof.
  split; [vm_compute; reflexivity|].
  split; [reflexivity|].
  split; [unfold within_range, sixth_of_hundred, to_Q, Qle; cbn [Qnum Qden]; split; vm_compute; discriminate|].
  split; [vm_compute; reflexivity|].
  split; vm_compute; reflexivity.
Qed.

End BarClaims.

Section BarClaims2.

(** At a width of 4433818019298801, still converted exactly, the count of
    '=' is one more than the width: the bar is longer than asked. *)
Lemma percent_to_graph_too_wide :
  exists bar,
    percent_to_graph hundred 4433818019298801 = Ok bar /\
    str_len bar = 4433818019298802.
Proof.
  assert (H : exists k, k = 4433818019298802 /\
            percent_to_graph hundred 4433818019298801 =
            Ok (str_mul "=" k ++ str_mul " " (4433818019298801 - k))%string).
  { eexists. split; [reflexivity|].
    unfold percent_to_graph.
    replace (negb (in_range hundred)) with false by (vm_compute; reflexivity).
    replace (mul_int hundred 4433818019298801)
      with (Ok (S754_finite false 6927840655154377 6)) by (vm_compute; reflexivity).
    cbn [bind].
    replace (div_int (S754_finite false 6927840655154377 6) 100)
      with (Ok (S754_finite false 8867636038597603 (-1))) by (vm_compute; reflexivity).
    cbn [bind].
    replace (round (S754_finite false 8867636038597603 (-1)))
      with (Ok 4433818019298802) by (vm_compute; reflexivity).
    reflexivity. }
  destruct H as (k & Hk & ->). eexists. split; [reflexivity|].
  unfold str_len, str_mul. rewrite length_app, !repeat_char_length. lia.
Qed.

End BarClaims2.

Section BarClaims3.

(** C8.  For every width, [percent_to_graph] raises [ValueError] exactly
    when the percentage does not lie between 0 and 100; it does so for -1
    and for 101. *)
Theorem percent_to_graph_range_error :
  (forall (percent : float) (total_chars : Z),
     is_float percent ->
     percent_to_graph percent total_chars = Raise ValueError <->
     ~ within_range percent) /\
  (forall total_chars, percent_to_graph minus_one total_chars = Raise ValueError) /\
  (forall total_chars, percent_to_graph hundred_one total_chars = Raise ValueError).
Proof.
  split; [|split; reflexivity].
  intros p w Hf. rewrite <- (in_range_exact p Hf).
  split.
  - intros H Hr. now apply (percent_to_graph_in_range p w Hr).
  - intros H. unfold percent_to_graph.
    destruct (in_range p); [now destruct H|reflexivity].
Qed.

Lemma percent_to_graph_range_error_witness :
  percent_to_graph minus_one 20 = Raise ValueError <-> ~ within_range minus_one.
Proof.
  apply (proj1 percent_to_graph_range_error minus_one 20).
  reflexivity.
Defined.



End BarClaims3.

Section SizeFormat.

Lemma of_int_sign (w : Z) (f : float) :
  0 <= w -> of_int w = Ok f -> has_sign false f.
Proof.
  intros Hw. unfold of_int, binary_normalize, binary_round.
  destruct w as [|m|m]; [intros [= <-]; reflexivity| |lia].
  destruct (shl_align m 0 _) as [mz ez].
  pose proof (binary_round_aux_not_nan false (Zpos mz) ez loc_Exact ltac:(lia)) as Hn.
  unfold binary_round_aux in *.
  destruct (shr_fexp prec emax (Zpos mz) ez loc_Exact) as [mrs' e'].
  destruct (shr_fexp prec emax _ e' loc_Exact) as [mrs'' e''].
  destruct (shr_m mrs'') as [|p|p]; [intros [= <-]; reflexivity| |congruence].
  destruct (e'' <=? emax - prec); [intros [= <-]; reflexivity|discriminate].
Qed.

(** Dividing by 1024 keeps a float that is not negative finite, not
    negative and below the same bound. *)
Lemma div_kibi_bounded (x : float) (K g : Z) :
  -1074 <= g <= 971 -> 0 <= K < 2 ^ 53 ->
  bounded_by K g x -> has_sign false x ->
  bounded_by K g (div x kibi) /\ has_sign false (div x kibi).
Proof.
  intros Hg HK Hb Hs.
  destruct x as [s|s| |s m e]; cbn [bounded_by has_sign] in Hb, Hs; try contradiction.
  - subst s. unfold div, kibi. cbn [SFdiv xorb bounded_by has_sign]. auto.
  - subst s. destruct Hb as [He Hm]. unfold kibi.
    apply (div_upper false false m 4503599627370496 e (-42) K g); lia.
Qed.

Lemma scaled_bounded (n : nat) :
  forall (x : float) (K g : Z),
    -1074 <= g <= 971 -> 0 <= K < 2 ^ 53 ->
    bounded_by K g x -> has_sign false x ->
    bounded_by K g (scaled n x) /\ has_sign false (scaled n x).
Proof.
  induction n as [|n IH]; intros x K g Hg HK Hb Hs; cbn [scaled]; auto.
  destruct (div_kibi_bounded x K g Hg HK Hb Hs) as [Hb' Hs'].
  now apply IH.
Qed.

(** The loop stops on its own test, after at most five divisions. *)
Lemma scale_loop_spec (steps : nat) :
  forall (size : float) (index : nat),
    (5 <= index + steps)%nat -> (index <= 5)%nat ->
    exists n : nat,
      scale_loop steps size index = (scaled n size, (index + n)%nat) /\
      (index + n <= 5)%nat /\
      (forall j, (j < n)%nat -> Float.leb kibi (scaled j size) = true) /\
      ((index + n)%nat = 5%nat \/ Float.leb kibi (scaled n size) = false).
Proof.
  induction steps as [|k IH]; intros size index Hfuel Hi; cbn [scale_loop].
  - exists O. rewrite Nat.add_0_r. cbn [scaled].
    repeat split; auto; lia.
  - change (List.length units - 1)%nat with 5%nat.
    destruct (Float.leb kibi size) eqn:El; cbn [andb].
    + destruct (Nat.ltb_spec index 5) as [Hlt|Hge].
      * destruct (IH (Float.div size kibi) (S index)) as (n & Hrun & Hn & Hall & Hend);
          try lia.
        exists (S n). cbn [scaled]. rewrite Hrun.
        replace (S index + n)%nat with (index + S n)%nat in * by lia.
        repeat split; auto.
        intros [|j] Hj; cbn [scaled]; auto. apply Hall. lia.
      * exists O. rewrite Nat.add_0_r. cbn [scaled].
        repeat split; auto; lia.
    + exists O. rewrite Nat.add_0_r. cbn [scaled].
      repeat split; auto; lia.
Qed.

Lemma str_digit_length (d : Z) : 0 <= d <= 9 -> String.length (str d) = 1%nat.
Proof.
  intros H.
  assert (Hd : d = 0 \/ d = 1 \/ d = 2 \/ d = 3 \/ d = 4 \/ d = 5 \/ d = 6 \/
               d = 7 \/ d = 8 \/ d = 9) by lia.
  repeat (destruct Hd as [->|Hd]; [reflexivity|]). now subst d.
Qed.

Lemma div_half_even_nonneg (m d : Z) : 0 <= m -> 0 < d -> 0 <= div_half_even m d.
Proof.
  intros Hm Hd. unfold div_half_even.
  pose proof (Z.div_pos m d Hm Hd).
  destruct (2 * (m mod d) ?= d); [destruct (Z.even (m / d))| |]; lia.
Qed.

(** One decimal of a float that is not negative: the whole part, a point
    and one digit. *)
Lemma format_fixed_1_shape (x : float) :
  (exists K g, bounded_by K g x) -> has_sign false x ->
  exists whole tenth : Z,
    0 <= whole /\ 0 <= tenth <= 9 /\
    format_fixed 1 x = (str whole ++ "." ++ str tenth)%string.
Proof.
  intros (K & g & Hb) Hs.
  assert (Hshape : forall n, 0 <= n ->
            ("" ++ str (n / 10) ++ "." ++
             repeat_str "0" (1 - String.length (str (n mod 10))) ++ str (n mod 10))%string
            = (str (n / 10) ++ "." ++ str (n mod 10))%string).
  { intros n Hn. pose proof (Z.mod_pos_bound n 10 ltac:(lia)) as Hr.
    rewrite str_digit_length by lia. reflexivity. }
  destruct x as [s|s| |s m e]; cbn [bounded_by has_sign] in Hb, Hs; try contradiction;
    subst s.
  - exists 0, 0. repeat split; lia || reflexivity.
  - unfold format_fixed. change (10 ^ Z.of_nat 1) with 10.
    set (n := match e with
              | Z.neg p => div_half_even (Zpos m * 10) (2 ^ Zpos p)
              | _ => Zpos m * 2 ^ e * 10
              end).
    assert (Hn : 0 <= n).
    { unfold n. destruct e as [|p|p].
      - lia.
      - assert (0 < 2 ^ Zpos p) by (apply Z.pow_pos_nonneg; lia). nia.
      - apply div_half_even_nonneg; [lia|apply Z.pow_pos_nonneg; lia]. }
    exists (n / 10), (n mod 10).
    pose proof (Z.mod_pos_bound n 10 ltac:(lia)) as Hr.
    split; [apply Z.div_pos; lia|]. split; [lia|].
    apply Hshape. exact Hn.
Qed.

(** C5 (as amended).  For every integer from 0 to the largest float,
    2^1024 - 2^971, [human_readable_size] converts it to a float, divides it
    by 1024 as long as it is at least 1024 and fewer than five divisions
    were made, and returns the result with one decimal, a space and the
    letter of [B, K, M, G, T, P] whose rank is the number of divisions;
    0 gives [0.0 B] and 11075584 gives [10.6 M]. *)
Theorem human_readable_size_format :
  (forall size_bytes : Z,
     0 <= size_bytes <= 2 ^ 1024 - 2 ^ 971 ->
     exists (size : float) (n : nat) (whole tenth : Z),
       Float.of_int size_bytes = Ok size /\
       (n <= 5)%nat /\
       (forall j, (j < n)%nat -> Float.leb kibi (scaled j size) = true) /\
       (n = 5%nat \/ Float.leb kibi (scaled n size) = false) /\
       0 <= whole /\ 0 <= tenth <= 9 /\
       format_fixed 1 (scaled n size) = (str whole ++ "." ++ str tenth)%string /\
       human_readable_size size_bytes =
         Ok (str whole ++ "." ++ str tenth ++ " " ++ nth n units "")%string) /\
  human_readable_size 0 = Ok "0.0 B" /\
  human_readable_size 11075584 = Ok "10.6 M".
Proof.
  split; [|split; reflexivity].
  intros b Hb.
  destruct (of_int_upper b (2 ^ 53 - 1) 971) as (size & Esize & Hbd & _);
    [change (2 ^ 1024 - 2 ^ 971) with ((2 ^ 53 - 1) * 2 ^ 971) in Hb; lia|lia|lia|].
  pose proof (of_int_sign b size ltac:(lia) Esize) as Hsg.
  destruct (scale_loop_spec (List.length units) size 0) as (n & Hrun & Hn & Hall & Hend);
    [cbn; lia|lia|].
  cbn [Nat.add] in Hrun, Hn, Hend.
  destruct (scaled_bounded n size (2 ^ 53 - 1) 971) as [Hbd' Hsg']; auto; try lia.
  destruct (format_fixed_1_shape (scaled n size)) as (whole & tenth & Hw & Ht & Hf); eauto.
  exists size, n, whole, tenth.
  repeat (split; [assumption|]).
  unfold human_readable_size. rewrite Esize. cbn [bind]. rewrite Hrun, Hf.
  f_equal. repeat (rewrite append_assoc; cbn [append]). reflexivity.
Qed.

Lemma human_readable_size_format_witness :
  exists (size : float) (n : nat) (whole tenth : Z),
    Float.of_int 11075584 = Ok size /\
    (n <= 5)%nat /\
    (forall j, (j < n)%nat -> Float.leb kibi (scaled j size) = true) /\
    (n = 5%nat \/ Float.leb kibi (scaled n size) = false) /\
    0 <= whole /\ 0 <= tenth <= 9 /\
    format_fixed 1 (scaled n size) = (str whole ++ "." ++ str tenth)%string /\
    human_readable_size 11075584 =
      Ok (str whole ++ "." ++ str tenth ++ " " ++ nth n units "")%string.
Proof.
  apply (proj1 human_readable_size_format 11075584).
  split; [lia|]. vm_compute. discriminate.
Defined.

(** C5 fails as stated for the integers that are too large for a float. *)
Lemma human_readable_size_counterexample :
  human_readable_size (2 ^ 1024) = Raise OverflowError.
Proof. vm_compute. reflexivity. Qed.

End SizeFormat.

Section ReportClaims.

Lemma shown_entries_not_target (dir_dict : dict) (target_dir : string) :
  Forall (fun e => fst e <> target_dir) (shown_entries dir_dict target_dir).
Proof.
  apply Forall_forall. intros e He. apply filter_In in He. destruct He as [_ He].
  unfold not_target in He. apply negb_true_iff in He. now apply String.eqb_neq.
Qed.

(** C1.  With a total size of 0 and an entry to show, the report stops at
    the first entry with a [ZeroDivisionError], before any line is printed. *)
Theorem print_directory_info_zero_total (dir_dict : dict) (target_dir : string)
    (human_readable : bool) (bar_length : Z) (entry : string * Z)
    (rest : list (string * Z)) :
  shown_entries dir_dict target_dir = entry :: rest ->
  print_directory_info dir_dict 0 target_dir human_readable bar_length =
    ([], Raise ZeroDivisionError).
Proof.
  intros Hshown. unfold print_directory_info.
  rewrite print_entries_skip. fold (shown_entries dir_dict target_dir).
  pose proof (shown_entries_not_target dir_dict target_dir) as Hnt.
  rewrite Hshown in *. inversion Hnt as [|e r Hne _]; subst.
  destruct entry as [p s]. cbn [print_entries]. cbn [fst] in Hne.
  apply String.eqb_neq in Hne. rewrite Hne. reflexivity.
Qed.

Lemma print_directory_info_zero_total_witness :
  print_directory_info [("/sys/kernel", 0); ("/sys", 0)]%string 0 "/sys" false 20 =
    ([], Raise ZeroDivisionError).
Proof.
  apply (print_directory_info_zero_total _ _ _ _ ("/sys/kernel"%string, 0) []).
  reflexivity.
Defined.







End ReportClaims.

Section PipelineClaims.

(** C7.  A line of two tokens or more whose first token is not an integer
    makes [create_dir_dict] raise [ValueError], wherever the line stands;
    nothing is stored or printed and the run ends with exit code 1. *)
Theorem create_dir_dict_non_numeric (alist : list string) (line tok p : string)
    (ps : list string) :
  In line alist ->
  split line = tok :: p :: ps ->
  (forall z, int tok <> Ok z) ->
  create_dir_dict alist = Raise ValueError /\
  forall (sys : system) (args : namespace),
    isdir sys (target args) = true ->
    call_du_sub sys (target args) = alist ->
    main sys args = ([], Uncaught ValueError) /\ exit_code (snd (main sys args)) = 1.
Proof.
  intros Hin Hsplit Hint.
  assert (H : create_dir_dict alist = Raise ValueError).
  { apply (create_dir_dict_from_bad_line alist line tok p ps Hin Hsplit).
    now apply int_not_integer. }
  split; [exact H|].
  intros sys args Hdir Hdu.
  assert (Hm : main sys args = ([], Uncaught ValueError)).
  { unfold main, main_body. rewrite Hdir, Hdu, H. reflexivity. }
  now rewrite Hm.
Qed.

Lemma create_dir_dict_non_numeric_witness :
  create_dir_dict ["50 /a/b"; "4.0K /a/c"; "100 /a"]%string = Raise ValueError /\
  forall (sys : system) (args : namespace),
    isdir sys (target args) = true ->
    call_du_sub sys (target args) = ["50 /a/b"; "4.0K /a/c"; "100 /a"]%string ->
    main sys args = ([], Uncaught ValueError) /\ exit_code (snd (main sys args)) = 1.
Proof.
  apply (create_dir_dict_non_numeric _ "4.0K /a/c"%string "4.0K"%string "/a/c"%string []).
  - right. left. reflexivity.
  - reflexivity.
  - intros z H. discriminate H.
Defined.

(** C9 (as amended).  Every pair of the dictionary comes from a line of two
    tokens or more: its size is the integer the first token denotes, with
    its sign, and its path is the other tokens joined.  So the sizes are not
    negative when no size token is. *)
Theorem create_dir_dict_sizes (alist : list string) (dir_dict : dict) :
  create_dir_dict alist = Ok dir_dict ->
  Forall (from_line alist) dir_dict /\
  ((forall line tok p ps z,
      In line alist -> split line = tok :: p :: ps -> int tok = Ok z -> 0 <= z) ->
   Forall (fun entry => 0 <= snd entry) dir_dict).
Proof.
  intros H.
  assert (Ho : Forall (from_line alist) dir_dict).
  { apply (create_dir_dict_from_origin alist alist (fun _ h => h) [] dir_dict); auto. }
  split; [exact Ho|].
  intros Hpos. eapply Forall_impl; [|exact Ho].
  intros [path size] (line & tok & p & ps & Hin & Hs & Hi & _).
  now apply (Hpos line tok p ps size).
Qed.

Lemma create_dir_dict_sizes_witness :
  Forall (from_line ["30 /a/b c"; "100 /a"]%string) [("/a/b c", 30); ("/a", 100)]%string /\
  ((forall line tok p ps z,
      In line ["30 /a/b c"; "100 /a"]%string -> split line = tok :: p :: ps ->
      int tok = Ok z -> 0 <= z) ->
   Forall (fun entry => 0 <= snd entry) [("/a/b c", 30); ("/a", 100)]%string).
Proof.
  apply (create_dir_dict_sizes ["30 /a/b c"; "100 /a"]%string).
  reflexivity.
Defined.

(** C9 fails as stated: a size token with a minus sign is stored as a
    negative size. *)
Lemma create_dir_dict_counterexample :
  create_dir_dict ["-5 /a"]%string = Ok [("/a"%string, -5)].
Proof. reflexivity. Qed.

(** C4.  The command is [du -d 1 location]: depth 1, and no option that
    asks for sizes in bytes, so that [du] counts in its default blocks. *)
Theorem du_command_no_byte_option (sys : system) (location : string) :
  du_command location = ["du"; "-d"; "1"; location]%string /\
  call_du_sub sys location =
    filter nonempty (split_on "010" (stdout (popen sys ["du"; "-d"; "1"; location]%string))) /\
  forall option,
    In option ["-b"; "--bytes"; "-B1"; "--block-size=1"; "--apparent-size"]%string ->
    In option (du_command location) -> option = location.
Proof.
  split; [reflexivity|]. split; [reflexivity|].
  intros option Hopt Hin. unfold du_command in Hin.
  cbn [In] in Hopt, Hin.
  destruct Hin as [<-|[<-|[<-|[<-|[]]]]]; auto;
    repeat (destruct Hopt as [Hopt|Hopt]; [discriminate Hopt|]); destruct Hopt.
Qed.

(** C3 (as amended).  A run depends on the standard output of the process
    alone: its exit status and its error output are not read.  When the
    output holds no line, the run ends with exit code 1, on the
    [IndexError] of [du_output[-1]]. *)
Theorem main_ignores_exit_status :
  (forall (sys sys' : system) (args : namespace),
     isdir sys (target args) = isdir sys' (target args) ->
     stdout (popen sys (du_command (target args))) =
       stdout (popen sys' (du_command (target args))) ->
     main sys args = main sys' args) /\
  (forall (sys : system) (args : namespace),
     isdir sys (target args) = true ->
     call_du_sub sys (target args) = [] ->
     main sys args = ([], Uncaught IndexError) /\ exit_code (snd (main sys args)) = 1).
Proof.
  split.
  - intros sys sys' args Hdir Hout.
    unfold main, main_body, call_du_sub. now rewrite Hdir, Hout.
  - intros sys args Hdir Hdu.
    assert (Hm : main sys args = ([], Uncaught IndexError)).
    { unfold main, main_body. rewrite Hdir, Hdu. reflexivity. }
    now rewrite Hm.
Qed.

Lemma main_ignores_exit_status_witness :
  main (system_partial 1) args_here = main (system_partial 0) args_here.
Proof.
  apply (proj1 main_ignores_exit_status (system_partial 1) (system_partial 0) args_here).
  - reflexivity.
  - reflexivity.
Defined.

(** C3 fails as stated: when [du] ends with status 1 after it printed
    sizes, the report is built from them and the run ends with exit code 0. *)
Lemma main_counterexample :
  returncode (popen (system_partial 1) (du_command (target args_here))) = 1 /\
  main (system_partial 1) args_here =
    ([" 50 % [==========          ] 4        ./a"; "Total: 8   ."]%string, Finished) /\
  exit_code (snd (main (system_partial 1) args_here)) = 0.
Proof. repeat split. Qed.

End PipelineClaims.

(** * Further properties *)

(** ** The dictionary built by [create_dir_dict] *)

Section Snapshot.

Lemma dict_get_set_same (k : string) (v : Z) (d : dict) :
  dict_get k (dict_set k v d) = Ok v.
Proof.
  induction d as [|[k' v'] r IH]; cbn [dict_set dict_get].
  - now rewrite String.eqb_refl.
  - destruct (String.eqb k k') eqn:E; cbn [dict_get]; rewrite E; auto.
Qed.

Lemma dict_get_set_other (k k' : string) (v : Z) (d : dict) :
  k <> k' -> dict_get k' (dict_set k v d) = dict_get k' d.
Proof.
  intros Hne. induction d as [|[k0 v0] r IH]; cbn [dict_set dict_get].
  - apply not_eq_sym, String.eqb_neq in Hne. now rewrite Hne.
  - destruct (String.eqb_spec k k0) as [->|Hk]; cbn [dict_get].
    + apply not_eq_sym, String.eqb_neq in Hne. now rewrite Hne.
    + now rewrite IH.
Qed.

Lemma dict_mem_keys (k : string) (d : dict) :
  dict_mem k d = true <-> In k (keys d).
Proof.
  induction d as [|[k' v'] r IH]; cbn [dict_mem keys map In fst].
  - split; [discriminate|tauto].
  - rewrite orb_true_iff, IH. unfold keys.
    split; (intros [H|H]; [left|right; exact H]).
    + apply String.eqb_eq in H. now symmetry.
    + apply String.eqb_eq. now symmetry.
Qed.

Lemma keys_dict_set (k : string) (v : Z) (d : dict) :
  keys (dict_set k v d) = if dict_mem k d then keys d else keys d ++ [k].
Proof.
  induction d as [|[k' v'] r IH]; cbn [dict_set dict_mem keys map fst app]; auto.
  destruct (String.eqb k k') eqn:E; cbn [orb map fst]; auto.
  fold (keys (dict_set k v r)). rewrite IH. fold (keys r).
  now destruct (dict_mem k r).
Qed.

Lemma keys_dict_set_NoDup (k : string) (v : Z) (d : dict) :
  NoDup (keys d) -> NoDup (keys (dict_set k v d)).
Proof.
  intros H. rewrite keys_dict_set.
  destruct (dict_mem k d) eqn:E; auto.
  apply NoDup_rev in H. rewrite <- (rev_involutive (keys d ++ [k])).
  apply NoDup_rev. rewrite rev_app_distr. cbn [rev app].
  constructor; auto.
  rewrite <- in_rev. intros Hin. apply dict_mem_keys in Hin. congruence.
Qed.

Lemma create_dir_dict_from_line (d : dict) (line : string) (rest : list string) :
  create_dir_dict_from d (line :: rest) =
  match line_entry line with
  | None => create_dir_dict_from d rest
  | Some (tok, path) =>
      let* size := int tok in create_dir_dict_from (dict_set path size d) rest
  end.
Proof.
  cbn [create_dir_dict_from]. unfold line_entry.
  now destruct (split line) as [|tok [|p ps]].
Qed.

Lemma create_dir_dict_from_app (l1 l2 : list string) :
  forall d,
    create_dir_dict_from d (l1 ++ l2) =
    let* d1 := create_dir_dict_from d l1 in create_dir_dict_from d1 l2.
Proof.
  induction l1 as [|line l1 IH]; intros d; [reflexivity|].
  rewrite <- app_comm_cons, !create_dir_dict_from_line.
  destruct (line_entry line) as [[tok path]|]; auto.
  destruct (int tok); cbn [bind]; auto.
Qed.

Lemma create_dir_dict_from_NoDup (alist : list string) :
  forall d d', NoDup (keys d) -> create_dir_dict_from d alist = Ok d' -> NoDup (keys d').
Proof.
  induction alist as [|line rest IH]; intros d d' Hd.
  - now intros [= <-].
  - rewrite create_dir_dict_from_line.
    destruct (line_entry line) as [[tok path]|]; eauto.
    destruct (int tok) as [size|e]; cbn [bind]; [|discriminate].
    apply IH. now apply keys_dict_set_NoDup.
Qed.

(** Lines that name other paths leave the size of a path as it is. *)
Lemma create_dir_dict_from_other (path : string) (alist : list string) :
  (forall line tok, In line alist -> line_entry line <> Some (tok, path)) ->
  forall d d', create_dir_dict_from d alist = Ok d' -> dict_get path d' = dict_get path d.
Proof.
  induction alist as [|line rest IH]; intros Hnot d d'.
  - now intros [= <-].
  - rewrite create_dir_dict_from_line.
    assert (Hrest : forall l tok, In l rest -> line_entry l <> Some (tok, path))
      by (intros l tok Hl; apply Hnot; now right).
    destruct (line_entry line) as [[tok p]|] eqn:E; eauto.
    destruct (int tok) as [size|e]; cbn [bind]; [|discriminate].
    intros H. rewrite (IH Hrest _ _ H).
    apply dict_get_set_other. intros ->.
    apply (Hnot line tok); [now left|exact E].
Qed.

(** X1.  No path is twice in the dictionary [create_dir_dict] returns. *)
Theorem create_dir_dict_keys_unique (alist : list string) (dir_dict : dict) :
  create_dir_dict alist = Ok dir_dict -> NoDup (keys dir_dict).
Proof. apply create_dir_dict_from_NoDup. constructor. Qed.

Lemma create_dir_dict_keys_unique_witness :
  NoDup (keys [("/a b", 7); ("/a", 100)]%string).
Proof.
  apply (create_dir_dict_keys_unique ["30 /a  b"; "100 /a"; "7 /a b"]%string).
  reflexivity.
Defined.

(** X2.  The last line that names a path decides its size: a later line
    overwrites an earlier one, lines of other paths do not touch it. *)
Theorem create_dir_dict_last_wins (before after : list string) (line tok path : string)
    (size : Z) (dir_dict : dict) :
  line_entry line = Some (tok, path) ->
  int tok = Ok size ->
  (forall l t, In l after -> line_entry l <> Some (t, path)) ->
  create_dir_dict (before ++ line :: after) = Ok dir_dict ->
  dict_get path dir_dict = Ok size /\ dict_mem path dir_dict = true.
Proof.
  intros Hline Hint Hafter. unfold create_dir_dict.
  rewrite create_dir_dict_from_app.
  destruct (create_dir_dict_from [] before) as [d1|e]; cbn [bind]; [|discriminate].
  rewrite create_dir_dict_from_line, Hline, Hint. cbn [bind].
  intros H.
  assert (Hget : dict_get path dir_dict = Ok size).
  { rewrite (create_dir_dict_from_other path after Hafter _ _ H).
    apply dict_get_set_same. }
  split; [exact Hget|].
  clear - Hget. induction dir_dict as [|[k v] r IH]; cbn [dict_get dict_mem] in *.
  - discriminate.
  - destruct (String.eqb path k); auto.
Qed.

Lemma create_dir_dict_last_wins_witness :
  dict_get "/a b" [("/a b", 7); ("/a", 100)]%string = Ok 7 /\
  dict_mem "/a b" [("/a b", 7); ("/a", 100)]%string = true.
Proof.
  apply (create_dir_dict_last_wins ["30 /a  b"]%string ["100 /a"]%string
           "7 /a b" "7" "/a b" 7).
  - reflexivity.
  - reflexivity.
  - intros l t [<-|[]] H. discriminate H.
  - reflexivity.
Defined.

(** X3.  [create_dir_dict] returns a dictionary exactly when every line of
    two tokens or more starts with an integer; lines of fewer tokens, empty
    ones among them, never make it fail. *)
Theorem create_dir_dict_succeeds_iff (alist : list string) :
  (exists dir_dict, create_dir_dict alist = Ok dir_dict) <->
  (forall line tok path,
     In line alist -> line_entry line = Some (tok, path) -> exists z, int tok = Ok z).
Proof.
  unfold create_dir_dict. generalize (@nil (string * Z)) as d.
  induction alist as [|line rest IH]; intros d.
  - split; [intros _ l t p []|intros _; now exists d].
  - rewrite create_dir_dict_from_line.
    destruct (line_entry line) as [[tok path]|] eqn:E.
    + destruct (int tok) as [size|e] eqn:Ei; cbn [bind].
      * rewrite IH. split.
        -- intros H l t p [<-|Hl] Hle; [|now apply (H l t p)].
           rewrite E in Hle. injection Hle as <- <-. now exists size.
        -- intros H l t p Hl. apply (H l t p). now right.
      * split; [intros [d' H]; discriminate|].
        intros H. destruct (H line tok path (or_introl eq_refl) E) as [z Hz]. congruence.
    + rewrite IH. split.
      * intros H l t p [<-|Hl] Hle; [congruence|now apply (H l t p)].
      * intros H l t p Hl. apply (H l t p). now right.
Qed.

End Snapshot.

(** ** Lines and tokens *)

Section Lines.

Lemma append_nil_r (s : string) : (s ++ "")%string = s.
Proof. induction s as [|c s IH]; simpl; congruence. Qed.

Lemma split_on_from_no_sep (sep : ascii) (s : string) :
  forall cur,
    count_char sep cur = O ->
    Forall (fun l => count_char sep l = O) (split_on_from sep cur s).
Proof.
  induction s as [|c r IH]; intros cur Hcur; cbn [split_on_from].
  - now constructor.
  - destruct (Ascii.eqb c sep) eqn:E.
    + constructor; auto.
    + apply IH. rewrite count_char_app, Hcur. cbn. now rewrite E.
Qed.

Lemma split_on_from_line (sep : ascii) (l rest : string) :
  count_char sep l = O ->
  forall cur,
    split_on_from sep cur (l ++ String sep rest) =
    (cur ++ l)%string :: split_on_from sep "" rest.
Proof.
  induction l as [|c l IH]; intros Hl cur.
  - cbn. now rewrite Ascii.eqb_refl, append_nil_r.
  - cbn in Hl. cbn [append split_on_from].
    destruct (Ascii.eqb c sep) eqn:E; [discriminate|].
    rewrite IH by exact Hl. f_equal.
    rewrite append_assoc. reflexivity.
Qed.

Lemma universal_newlines_other (c : ascii) (r : string) :
  c <> "013"%char ->
  universal_newlines (String c r) = String c (universal_newlines r).
Proof.
  intros Hc.
  destruct c as [[] [] [] [] [] [] [] []]; try reflexivity.
  now destruct Hc.
Qed.

Lemma universal_newlines_CR (r : string) :
  (forall r', r <> String "010" r') ->
  universal_newlines (String "013" r) = String "010" (universal_newlines r).
Proof.
  intros Hr. cbn [universal_newlines].
  destruct r as [|c r']; [reflexivity|].
  destruct (Ascii.eqb_spec c "010") as [->|Hc]; [now destruct (Hr r')|].
  destruct c as [[] [] [] [] [] [] [] []]; try reflexivity.
  now destruct Hc.
Qed.

(** No CR is left in a text read through the pipe. *)
Lemma universal_newlines_no_CR (s : string) :
  count_char "013" (universal_newlines s) = O.
Proof.
  assert (H : forall n s, (String.length s <= n)%nat ->
                          count_char "013" (universal_newlines s) = O);
    [|now apply (H (String.length s))].
  clear s. induction n as [|n IH]; intros s Hlen.
  - destruct s; [reflexivity|cbn in Hlen; lia].
  - destruct s as [|c r]; [reflexivity|]. cbn [String.length] in Hlen.
    destruct (Ascii.eqb_spec c "013") as [->|Hc].
    + cbn [universal_newlines count_char Ascii.eqb Bool.eqb].
      destruct r as [|c' r']; [reflexivity|].
      cbn [String.length] in Hlen.
      destruct (Ascii.eqb_spec c' "010") as [->|Hc'].
      * apply IH. lia.
      * replace (match String c' r' with
                 | String "010" r'0 => universal_newlines r'0
                 | _ => universal_newlines (String c' r')
                 end) with (universal_newlines (String c' r')).
        -- apply IH. cbn [String.length]. lia.
        -- destruct c' as [[] [] [] [] [] [] [] []]; try reflexivity.
           now destruct Hc'.
    + rewrite universal_newlines_other by exact Hc.
      cbn [count_char]. destruct (Ascii.eqb_spec c "013"); [contradiction|].
      apply IH. lia.
Qed.

(** A line goes through the pipe unchanged. *)
Lemma universal_newlines_line (line rest : string) :
  count_char "013" line = O ->
  universal_newlines (line ++ rest) = (line ++ universal_newlines rest)%string.
Proof.
  induction line as [|c l IH]; intros Hl; [reflexivity|].
  cbn [count_char] in Hl.
  destruct (Ascii.eqb_spec c "013") as [|Hc]; [discriminate|].
  cbn [append]. rewrite universal_newlines_other by exact Hc.
  now rewrite IH.
Qed.

(** Lines with their ends come out of the pipe with LF as the end of each. *)
Lemma universal_newlines_terminated (lines : list (string * string)) :
  Forall (fun le => is_line (fst le) /\ is_newline (snd le)) lines ->
  universal_newlines (terminated lines) = unlines (map fst lines).
Proof.
  induction 1 as [|[line e] rest [(Hne & Hlf & Hcr) He] Hrest IH]; [reflexivity|].
  cbn [fst snd] in *. cbn [terminated map unlines].
  rewrite universal_newlines_line by exact Hcr. f_equal.
  destruct He as [->|[->| ->]].
  - unfold LF. cbn [append]. rewrite universal_newlines_other by discriminate.
    now rewrite IH.
  - unfold CR, LF. cbn [append]. rewrite universal_newlines_CR; [now rewrite IH|].
    intros r' Hr'. inversion Hrest as [|[l' e'] rest' [(Hne' & Hlf' & _) _] _ E];
      subst; cbn [terminated] in Hr'; [discriminate|].
    cbn [fst] in *. destruct l' as [|c l']; [now destruct Hne'|].
    cbn [append] in Hr'. injection Hr' as -> _. cbn in Hlf'. discriminate.
  - unfold CR, LF. cbn [append universal_newlines]. now rewrite IH.
Qed.

Lemma split_on_from_without (c sep : ascii) (s : string) :
  forall cur,
    count_char c cur = O -> count_char c s = O ->
    Forall (fun l => count_char c l = O) (split_on_from sep cur s).
Proof.
  induction s as [|x r IH]; intros cur Hcur Hs; cbn [split_on_from].
  - now constructor.
  - cbn [count_char] in Hs.
    destruct (Ascii.eqb x c) eqn:Ex; [discriminate|].
    destruct (Ascii.eqb x sep).
    + constructor; auto.
    + apply IH; auto. rewrite count_char_app, Hcur. cbn [count_char].
      now rewrite Ex.
Qed.

(** X5.  When the process printed [out], the lines [call_du_sub] returns
    are lines indeed: not empty, without LF and without CR, since the pipe
    is read in text mode.  When [out] is made of such lines, each ended by
    LF, CR or CR LF, [call_du_sub] returns exactly these lines, in order. *)
Theorem call_du_sub_lines (sys : system) (location out err : string) (code : Z) :
  popen sys (du_command location) = communicate out err code ->
  Forall is_line (call_du_sub sys location) /\
  forall lines : list (string * string),
    Forall (fun le => is_line (fst le) /\ is_newline (snd le)) lines ->
    out = terminated lines ->
    call_du_sub sys location = map fst lines.
Proof.
  intros Hrun. unfold call_du_sub. rewrite Hrun. cbn [stdout communicate]. split.
  - apply Forall_forall. intros l Hl. apply filter_In in Hl. destruct Hl as [Hin Hne].
    split; [now destruct l|]. split.
    + pose proof (split_on_from_no_sep "010" (universal_newlines out) "" eq_refl) as H.
      rewrite Forall_forall in H. now apply H.
    + pose proof (split_on_from_without "013" "010" (universal_newlines out) "" eq_refl
                    (universal_newlines_no_CR out)) as H.
      rewrite Forall_forall in H. now apply H.
  - intros lines Hlines ->. rewrite universal_newlines_terminated by exact Hlines.
    unfold split_on. clear Hrun.
    induction Hlines as [|[l e] rest [(Hne & Hlf & _) _] _ IH]; [reflexivity|].
    cbn [map fst unlines]. unfold LF. cbn [append].
    rewrite (split_on_from_line "010" l (unlines (map fst rest)) Hlf "").
    cbn [append filter]. destruct l; [now destruct Hne|]. cbn [nonempty].
    now rewrite IH.
Qed.

Lemma call_du_sub_lines_witness :
  call_du_sub (system_running ("4 ./a" ++ CR ++ LF ++ "8 ." ++ CR ++ "12 ./b" ++ LF)) "." =
    map fst [("4 ./a", CR ++ LF); ("8 .", CR); ("12 ./b", LF)]%string.
Proof.
  apply (proj2 (call_du_sub_lines
                  (system_running ("4 ./a" ++ CR ++ LF ++ "8 ." ++ CR ++ "12 ./b" ++ LF))
                  "." ("4 ./a" ++ CR ++ LF ++ "8 ." ++ CR ++ "12 ./b" ++ LF) "" 0
                  eq_refl)
               [("4 ./a", CR ++ LF); ("8 .", CR); ("12 ./b", LF)]%string).
  - repeat (apply Forall_cons; [split; [repeat split; discriminate|]|]);
      [right; right; reflexivity|right; left; reflexivity|left; reflexivity|apply Forall_nil].
  - reflexivity.
Defined.

Lemma flush_token (cur : string) : cur <> ""%string -> flush cur = [cur].
Proof. destruct cur; [intros H; now destruct H|reflexivity]. Qed.

Lemma all_chars_append (P : ascii -> Prop) (a b : string) :
  all_chars P (a ++ b) <-> all_chars P a /\ all_chars P b.
Proof. induction a as [|x a IH]; simpl; tauto. Qed.

Lemma split_from_tokens (s : string) :
  forall cur,
    all_chars (fun c => is_space c = false) cur ->
    Forall is_token (split_from cur s).
Proof.
  induction s as [|c r IH]; intros cur Hcur; cbn [split_from].
  - destruct cur; cbn [flush]; constructor; [|constructor].
    split; [discriminate|exact Hcur].
  - destruct (is_space c) eqn:E.
    + apply Forall_app. split; [|apply IH; exact I].
      destruct cur; cbn [flush]; constructor; [|constructor].
      split; [discriminate|exact Hcur].
    + apply IH. apply all_chars_append. split; [exact Hcur|]. cbn. auto.
Qed.

Lemma split_from_token (t rest : string) :
  all_chars (fun c => is_space c = false) t ->
  forall cur, split_from cur (t ++ rest) = split_from (cur ++ t) rest.
Proof.
  induction t as [|c t IH]; intros Ht cur.
  - cbn. now rewrite append_nil_r.
  - destruct Ht as [Hc Ht]. cbn [append split_from]. rewrite Hc.
    rewrite IH by exact Ht. now rewrite append_assoc.
Qed.

(** X6.  The tokens of a line are not empty and hold no white space, and
    joining tokens then splitting gives the tokens back: a path stored by
    [create_dir_dict] is its own tokens joined by single spaces. *)
Theorem split_join_tokens :
  (forall s, Forall is_token (split s)) /\
  (forall tokens, Forall is_token tokens -> split (join tokens) = tokens) /\
  (forall alist dir_dict,
     create_dir_dict alist = Ok dir_dict ->
     Forall (fun entry => fst entry <> ""%string /\ join (split (fst entry)) = fst entry)
            dir_dict).
Proof.
  assert (H1 : forall s, Forall is_token (split s))
    by (intros s; apply split_from_tokens; exact I).
  assert (H2 : forall tokens, Forall is_token tokens -> split (join tokens) = tokens).
  { intros tokens Ht. unfold split.
    induction Ht as [|t rest [Hne Hsp] Hrest IH]; [reflexivity|].
    destruct rest as [|t' rest'].
    - cbn [join]. rewrite <- (append_nil_r t) at 1.
      rewrite split_from_token by exact Hsp. cbn [append split_from].
      now apply flush_token.
    - change (join (t :: t' :: rest')) with (t ++ String " " (join (t' :: rest')))%string.
      rewrite split_from_token by exact Hsp. cbn [append split_from].
      change (is_space " ") with true. cbv iota.
      rewrite flush_token by exact Hne. now rewrite IH. }
  split; [exact H1|]. split; [exact H2|].
  intros alist d Hd.
  pose proof (create_dir_dict_from_origin alist alist (fun _ h => h) [] d
                (Forall_nil _) Hd) as Ho.
  eapply Forall_impl; [|exact Ho].
  intros [path size] (line & tok & p & ps & _ & Hs & _ & Hp). cbn [fst] in *.
  pose proof (H1 line) as Htok. rewrite Hs in Htok.
  inversion Htok as [|t0 l0 _ Hps]. clear Htok. subst t0 l0.
  rewrite Hp, (H2 _ Hps). split; [|reflexivity].
  inversion Hps as [|t1 l1 [Hne _] _]. subst t1 l1.
  destruct p; [now destruct Hne|]. destruct ps; discriminate.
Qed.

Lemma split_join_tokens_witness :
  split (join ["/a"; "b"]%string) = ["/a"; "b"]%string.
Proof.
  apply (proj1 (proj2 split_join_tokens) ["/a"; "b"]%string).
  repeat constructor; discriminate.
Defined.

End Lines.

(** ** The total of the report *)

Section Total.

Lemma dict_mem_get (k : string) (d : dict) :
  dict_mem k d = true <-> exists v, dict_get k d = Ok v.
Proof.
  induction d as [|[k' v'] r IH]; cbn [dict_mem dict_get].
  - split; [discriminate|intros [v H]; discriminate].
  - destruct (String.eqb k k'); cbn [orb]; [|exact IH].
    split; [intros _; now exists v'|reflexivity].
Qed.

Lemma dict_get_raises (k : string) (d : dict) (e : exn) :
  dict_get k d = Raise e -> e = KeyError.
Proof.
  induction d as [|[k' v'] r IH]; cbn [dict_get].
  - now intros [= <-].
  - destruct (String.eqb k k'); [discriminate|exact IH].
Qed.

Lemma last_line_size (before : list string) (last tok path : string) (dir_dict : dict) :
  line_entry last = Some (tok, path) ->
  create_dir_dict (before ++ [last]) = Ok dir_dict ->
  exists size, int tok = Ok size /\ dict_get path dir_dict = Ok size.
Proof.
  intros Hline. unfold create_dir_dict. rewrite create_dir_dict_from_app.
  destruct (create_dir_dict_from [] before) as [d1|e]; cbn [bind]; [|discriminate].
  rewrite create_dir_dict_from_line, Hline.
  destruct (int tok) as [size|e]; cbn [bind create_dir_dict_from]; [|discriminate].
  intros [= <-]. exists size. split; [reflexivity|apply dict_get_set_same].
Qed.

Lemma keys_not_empty (alist : list string) (dir_dict : dict) :
  create_dir_dict alist = Ok dir_dict -> dict_mem "" dir_dict = false.
Proof.
  intros Hd.
  pose proof (create_dir_dict_from_origin alist alist (fun _ h => h) [] dir_dict
                (Forall_nil _) Hd) as Ho.
  destruct (dict_mem "" dir_dict) eqn:E; [|reflexivity]. exfalso.
  apply dict_mem_keys in E. unfold keys in E. apply in_map_iff in E.
  destruct E as ([path size] & Hp & Hin). cbn [fst] in Hp. subst path.
  rewrite Forall_forall in Ho.
  destruct (Ho _ Hin) as (line & tok & p & ps & _ & Hs & _ & Hj). cbn [fst] in Hj.
  pose proof (split_from_tokens line "" I) as Ht. fold (split line) in Ht.
  rewrite Hs in Ht. inversion Ht as [|t0 l0 _ Hps]. subst t0 l0.
  inversion Hps as [|t1 l1 [Hne _] _]. subst t1 l1.
  destruct p; [now destruct Hne|]. destruct ps; discriminate.
Qed.

(** X7.  When the target is no key of the dictionary, the total is the
    size on the last line of the output, under the path of that line: the
    lookup then succeeds and the report is printed for that path. *)
Theorem main_total_from_last_line (sys : system) (args : namespace)
    (before : list string) (last tok path : string) (dir_dict : dict) :
  isdir sys (target args) = true ->
  call_du_sub sys (target args) = before ++ [last] ->
  create_dir_dict (before ++ [last]) = Ok dir_dict ->
  dict_mem (target args) dir_dict = false ->
  line_entry last = Some (tok, path) ->
  exists total_size,
    int tok = Ok total_size /\
    main sys args =
      finish (print_directory_info dir_dict total_size path
                (human_readable args) (length args)).
Proof.
  intros Hdir Hdu Hd Hmem Hline.
  destruct (last_line_size before last tok path dir_dict Hline Hd) as (size & Hi & Hg).
  exists size. split; [exact Hi|].
  unfold main, main_body. rewrite Hdir, Hdu, Hd. cbn [negb lift io_bind].
  rewrite Hmem, rev_app_distr. cbn [rev app].
  assert (Hp : join (tl (split last)) = path).
  { unfold line_entry in Hline.
    destruct (split last) as [|t [|p ps]]; try discriminate.
    now injection Hline as _ <-. }
  rewrite Hp, Hg.
  destruct (print_directory_info dir_dict size path (human_readable args) (length args))
    as [out [u|e]]; reflexivity.
Qed.

Lemma main_total_from_last_line_witness :
  exists total_size,
    int "8" = Ok total_size /\
    main (system_partial 0) {| target := "./"; length := 20; human_readable := false |} =
      finish (print_directory_info [("./a", 4); (".", 8)]%string total_size "."
                false 20).
Proof.
  apply (main_total_from_last_line (system_partial 0)
           {| target := "./"; length := 20; human_readable := false |}
           ["4 ./a"]%string "8 ."%string "8"%string "."%string).
  - reflexivity.
  - reflexivity.
  - reflexivity.
  - reflexivity.
  - reflexivity.
Defined.

(** X8.  When the target is no key of the dictionary and the last line of
    the output has fewer than two tokens, the path looked up is empty, which
    is no key: [main] prints nothing and ends on a [KeyError], exit code 1. *)
Theorem main_key_error (sys : system) (args : namespace)
    (before : list string) (last : string) (dir_dict : dict) :
  isdir sys (target args) = true ->
  call_du_sub sys (target args) = before ++ [last] ->
  create_dir_dict (before ++ [last]) = Ok dir_dict ->
  dict_mem (target args) dir_dict = false ->
  line_entry last = None ->
  main sys args = ([], Uncaught KeyError) /\ exit_code (snd (main sys args)) = 1.
Proof.
  intros Hdir Hdu Hd Hmem Hline.
  assert (Hm : main sys args = ([], Uncaught KeyError)); [|now rewrite Hm].
  unfold main, main_body. rewrite Hdir, Hdu, Hd. cbn [negb lift io_bind].
  rewrite Hmem, rev_app_distr. cbn [rev app].
  assert (Hp : join (tl (split last)) = ""%string).
  { unfold line_entry in Hline.
    destruct (split last) as [|t [|p ps]]; try discriminate; reflexivity. }
  rewrite Hp.
  pose proof (keys_not_empty _ _ Hd) as Hk.
  destruct (dict_get "" dir_dict) as [v|e] eqn:Eg.
  - assert (dict_mem "" dir_dict = true) by (apply dict_mem_get; now exists v).
    congruence.
  - now rewrite (dict_get_raises _ _ _ Eg).
Qed.

Lemma main_key_error_witness :
  main (system_printing ("4 ./a" ++ LF ++ "total")) args_here =
    ([], Uncaught KeyError) /\
  exit_code (snd (main (system_printing ("4 ./a" ++ LF ++ "total")) args_here)) = 1.
Proof.
  apply (main_key_error (system_printing ("4 ./a" ++ LF ++ "total")) args_here
           ["4 ./a"]%string "total"%string [("./a"%string, 4)]).
  - reflexivity.
  - reflexivity.
  - reflexivity.
  - reflexivity.
  - reflexivity.
Defined.

End Total.

(** ** Reading the sizes back *)

Section Decimal.

Lemma digits_val_uint (d : Decimal.uint) :
  forall (acc : Z) (prev : bool),
    d <> Decimal.Nil \/ prev = true ->
    digits_val acc prev (DecimalString.NilEmpty.string_of_uint d) =
    Some (Z.of_N (DecimalPos.Unsigned.of_lu (Decimal.rev d)) + acc * 10 ^ Z.of_N (DecimalPos.Unsigned.usize d)).
Proof.
  assert (Hrev : forall k d',
            DecimalPos.Unsigned.of_lu (Decimal.revapp d' k) =
            (DecimalPos.Unsigned.of_lu (Decimal.rev d') + DecimalPos.Unsigned.of_lu k * 10 ^ DecimalPos.Unsigned.usize d')%N)
    by (intros; apply DecimalPos.Unsigned.of_lu_revapp).
  induction d as [|d IH|d IH|d IH|d IH|d IH|d IH|d IH|d IH|d IH|d IH];
    intros acc prev Hne.
  1: { destruct Hne as [Hne| ->]; [now destruct Hne|]. cbn. f_equal. lia. }
  all: cbn [DecimalString.NilEmpty.string_of_uint digits_val];
    match goal with
    | |- context [digit_of ?c] =>
        let v := eval vm_compute in (digit_of c) in change (digit_of c) with v
    end; cbv iota;
    rewrite IH by (now right);
    unfold Decimal.rev at 2; cbn [Decimal.revapp]; rewrite Hrev;
    cbn [DecimalPos.Unsigned.usize DecimalPos.Unsigned.of_lu];
    rewrite N2Z.inj_add, N2Z.inj_mul, N2Z.inj_pow, N2Z.inj_succ,
      Z.pow_succ_r by lia;
    f_equal; change (Z.of_N 10) with 10; lia.
Qed.

(** [int] reads back what [str] writes. *)
Lemma int_str (z : Z) : int (str z) = Ok z.
Proof.
  unfold str, Z.to_int.
  destruct z as [|p|p].
  - reflexivity.
  - cbn [DecimalString.NilZero.string_of_int].
    pose proof (DecimalPos.Unsigned.to_uint_nonnil p) as Hnn.
    pose proof (DecimalPos.Unsigned.of_to p) as Hval.
    rewrite DecimalPos.Unsigned.of_uint_alt in Hval.
    pose proof (digits_val_uint (Pos.to_uint p) 0 false (or_introl Hnn)) as H.
    rewrite Hval in H. unfold DecimalString.NilZero.string_of_uint.
    destruct (Pos.to_uint p) as [|d|d|d|d|d|d|d|d|d|d]; [now destruct Hnn| ..];
      unfold int; cbn [DecimalString.NilEmpty.string_of_uint]; cbn [DecimalString.NilEmpty.string_of_uint] in H;
      rewrite H; f_equal; lia.
  - cbn [DecimalString.NilZero.string_of_int].
    pose proof (DecimalPos.Unsigned.to_uint_nonnil p) as Hnn.
    pose proof (DecimalPos.Unsigned.of_to p) as Hval.
    rewrite DecimalPos.Unsigned.of_uint_alt in Hval.
    pose proof (digits_val_uint (Pos.to_uint p) 0 false (or_introl Hnn)) as H.
    rewrite Hval in H. unfold DecimalString.NilZero.string_of_uint.
    unfold int.
    destruct (Pos.to_uint p) as [|d|d|d|d|d|d|d|d|d|d]; [now destruct Hnn| ..];
      rewrite H; cbn [option_map]; f_equal; lia.
Qed.

Lemma digit_not_space (c : ascii) (d : Z) : digit_of c = Some d -> is_space c = false.
Proof.
  unfold digit_of, is_space. cbv zeta.
  destruct (N.leb_spec 48 (N_of_ascii c)), (N.leb_spec (N_of_ascii c) 57);
    cbn [andb]; try discriminate.
  intros _.
  destruct (N.leb_spec 9 (N_of_ascii c)), (N.leb_spec (N_of_ascii c) 13),
    (N.leb_spec 28 (N_of_ascii c)), (N.leb_spec (N_of_ascii c) 32);
    cbn [andb orb]; auto; lia.
Qed.

Lemma digits_val_no_space (s : string) :
  forall acc prev z,
    digits_val acc prev s = Some z -> all_chars (fun c => is_space c = false) s.
Proof.
  induction s as [|c r IH]; intros acc prev z H; [exact I|].
  cbn [digits_val] in H. cbn [all_chars].
  destruct (digit_of c) as [d|] eqn:Ed.
  - split; [eapply digit_not_space; eauto|eapply IH; eauto].
  - destruct (Ascii.eqb_spec c "_") as [->|]; cbn [andb] in H; [|discriminate].
    destruct prev; [|discriminate].
    split; [reflexivity|eapply IH; eauto].
Qed.

(** What [int] accepts is a token. *)
Lemma int_token (s : string) (z : Z) : int s = Ok z -> is_token s.
Proof.
  unfold int. intros H.
  assert (Hcases : exists acc z',
             (digits_val acc false s = Some z') \/
             (exists r, (s = String "+" r \/ s = String "-" r) /\
                        digits_val acc false r = Some z')).
  { destruct s as [|c r]; [discriminate|].
    destruct (Ascii.eqb_spec c "+") as [->|Hp].
    - destruct (digits_val 0 false r) as [v|] eqn:E; [|discriminate].
      exists 0, v. right. exists r. auto.
    - destruct (Ascii.eqb_spec c "-") as [->|Hm].
      + destruct (digits_val 0 false r) as [v|] eqn:E; [|discriminate].
        exists 0, v. right. exists r. auto.
      + assert (E : match String c r with
                    | String "+" r0 => digits_val 0 false r0
                    | String "-" r0 => option_map Z.opp (digits_val 0 false r0)
                    | _ => digits_val 0 false (String c r)
                    end = digits_val 0 false (String c r)).
        { destruct c as [[] [] [] [] [] [] [] []]; try reflexivity;
            [now destruct Hm|now destruct Hp]. }
        rewrite E in H.
        destruct (digits_val 0 false (String c r)) as [v|] eqn:E'; [|discriminate].
        exists 0, v. now left. }
  destruct Hcases as (acc & z' & [Hd|(r & Hs & Hd)]).
  - split; [|eapply digits_val_no_space; eauto].
    intros ->. discriminate.
  - split; [destruct Hs as [-> | ->]; discriminate|].
    pose proof (digits_val_no_space _ _ _ _ Hd) as Hr.
    destruct Hs as [-> | ->]; cbn [all_chars]; split; auto.
Qed.

Lemma split_two_tokens (t1 t2 : string) :
  is_token t1 -> is_token t2 -> split (t1 ++ " " ++ t2) = [t1; t2].
Proof.
  intros [Hne1 Hsp1] [Hne2 Hsp2]. unfold split.
  rewrite split_from_token by exact Hsp1. cbn [append split_from].
  change (is_space " ") with true. cbv iota.
  rewrite flush_token by exact Hne1.
  rewrite <- (append_nil_r t2) at 1. rewrite split_from_token by exact Hsp2.
  cbn [append split_from]. now rewrite flush_token.
Qed.

(** X4.  A size the report prints in plain form, followed by a space and a
    path in one piece, is a line the parser reads back as this path with
    this size, for every size of at most 4300 digits. *)
Theorem size_string_read_back (size : Z) (path : string) :
  convertible size -> is_token path ->
  exists size_str,
    size_string false size = Ok size_str /\
    create_dir_dict [size_str ++ " " ++ path]%string = Ok [(path, size)].
Proof.
  intros _ Hpath. exists (str size). split; [reflexivity|].
  pose proof (int_token _ _ (int_str size)) as Htok.
  unfold create_dir_dict. cbn [create_dir_dict_from].
  rewrite (split_two_tokens _ _ Htok Hpath), int_str. reflexivity.
Qed.

Lemma size_string_read_back_witness :
  exists size_str,
    size_string false 4096 = Ok size_str /\
    create_dir_dict [size_str ++ " " ++ "./a"]%string = Ok [("./a"%string, 4096)].
Proof.
  apply (size_string_read_back 4096 "./a").
  - reflexivity.
  - split; [discriminate|repeat split].
Defined.

End Decimal.

(** ** The floats computed are floats *)

Section Canonical.

Lemma Zdigits2_nonneg (m : Z) : 0 <= Zdigits2 m.
Proof. destruct m; cbn [Zdigits2]; lia. Qed.

Lemma Zdigits2_bounds (m : Z) :
  0 < m -> 2 ^ (Zdigits2 m - 1) <= m < 2 ^ Zdigits2 m.
Proof.
  destruct m as [|p|p]; try lia. intros _. cbn [Zdigits2].
  split; [apply digits_ge|apply digits_lt].
Qed.

Lemma Zdigits2_unique (m d : Z) :
  2 ^ (d - 1) <= m < 2 ^ d -> 0 < d -> Zdigits2 m = d.
Proof.
  intros [Hlo Hhi] Hd.
  assert (Hm : 0 < m) by (pose proof (pow2_pos (d - 1) ltac:(lia)); lia).
  destruct (Zdigits2_bounds m Hm) as [Hlo' Hhi'].
  pose proof (Zdigits2_nonneg m) as Hn.
  destruct (Z.lt_trichotomy (Zdigits2 m) d) as [Hlt|[Heq|Hgt]]; auto; exfalso.
  - assert (2 ^ Zdigits2 m <= 2 ^ (d - 1)) by (apply Z.pow_le_mono_r; lia). lia.
  - assert (2 ^ d <= 2 ^ (Zdigits2 m - 1)) by (apply Z.pow_le_mono_r; lia). lia.
Qed.

Lemma Zdigits2_positive (m : Z) : 0 < m -> 0 < Zdigits2 m.
Proof. destruct m; cbn [Zdigits2]; lia. Qed.

Lemma Zdigits2_mono (m m' : Z) : 0 <= m <= m' -> Zdigits2 m <= Zdigits2 m'.
Proof.
  intros [Hm Hle].
  destruct (Z.eq_dec m 0) as [->|Hne]; [apply Zdigits2_nonneg|].
  destruct (Zdigits2_bounds m ltac:(lia)) as [Hlo _].
  destruct (Zdigits2_bounds m' ltac:(lia)) as [_ Hhi].
  destruct (Z.le_gt_cases (Zdigits2 m) (Zdigits2 m')) as [|Hgt]; auto. exfalso.
  pose proof (Zdigits2_nonneg m').
  assert (2 ^ Zdigits2 m' <= 2 ^ (Zdigits2 m - 1)) by (apply Z.pow_le_mono_r; lia).
  lia.
Qed.

Lemma Zdigits2_shift (m n : Z) :
  0 <= m -> 0 <= n -> Zdigits2 (m / 2 ^ n) = Z.max 0 (Zdigits2 m - n).
Proof.
  intros Hm Hn.
  pose proof (pow2_pos n Hn) as HD.
  destruct (Z.eq_dec m 0) as [->|Hne].
  { rewrite Z.div_0_l by lia. cbn [Zdigits2]. lia. }
  destruct (Zdigits2_bounds m ltac:(lia)) as [Hlo Hhi].
  pose proof (Zdigits2_positive m ltac:(lia)) as Hd.
  set (d := Zdigits2 m) in *.
  destruct (Z.le_gt_cases d n) as [Hle|Hgt].
  - assert (2 ^ d <= 2 ^ n) by (apply Z.pow_le_mono_r; lia).
    rewrite Z.div_small by lia. cbn [Zdigits2]. lia.
  - rewrite Z.max_r by lia. apply Zdigits2_unique; [|lia].
    assert (E1 : 2 ^ (d - 1) = 2 ^ (d - n - 1) * 2 ^ n)
      by (rewrite <- pow2_split by lia; f_equal; lia).
    assert (E2 : 2 ^ d = 2 ^ (d - n) * 2 ^ n)
      by (rewrite <- pow2_split by lia; f_equal; lia).
    rewrite E1 in Hlo. rewrite E2 in Hhi.
    split.
    + apply Z.div_le_lower_bound; lia.
    + apply Z.div_lt_upper_bound; lia.
Qed.

Lemma fexp_mono (a b : Z) : a <= b -> fexp a <= fexp b.
Proof. rewrite !fexp_eq. lia. Qed.

(** One pass of [shr_fexp] on a mantissa with digits enough: the exponent
    becomes the canonical one. *)
Lemma shr_fexp_canonical (m e : Z) (l : location) :
  0 <= m -> e <= fexp (Zdigits2 m + e) ->
  let r := shr_fexp prec emax m e l in
  0 <= shr_m (fst r) /\
  (0 < shr_m (fst r) -> fexp (Zdigits2 (shr_m (fst r)) + snd r) = snd r) /\
  (shr_m (fst r) = 0 -> snd r = -1074).
Proof.
  intros Hm He. cbv zeta. unfold shr_fexp, shr.
  change (SpecFloat.fexp prec emax) with fexp.
  set (t := Zdigits2 m + e) in *.
  pose proof (Zdigits2_nonneg m) as Hd.
  destruct (fexp t - e) as [|p|p] eqn:En; cbn [fst snd];
    rewrite ?shr_m_record_of_loc; [| |lia].
  - assert (Hfe : fexp t = e) by lia.
    split; [exact Hm|]. split; [intros _; exact Hfe|].
    intros ->. cbn [Zdigits2] in *. rewrite fexp_eq in Hfe. unfold t in Hfe. lia.
  - pose proof (shifted_iter p (shr_record_of_loc m l)) as Hs. unfold shifted in Hs.
    rewrite shr_m_record_of_loc in Hs. destruct (Hs Hm) as [Hq _]. rewrite Hq.
    pose proof (Zdigits2_shift m (Zpos p) Hm ltac:(lia)) as Hds.
    pose proof (pow2_pos (Zpos p) ltac:(lia)) as HD.
    split; [apply Z.div_pos; lia|].
    assert (Hfe : e + Zpos p = fexp t) by lia.
    split.
    + intros Hpos.
      assert (Hdq : 0 < Zdigits2 (m / 2 ^ Zpos p)) by now apply Zdigits2_positive.
      rewrite Hds in *. rewrite Z.max_r in * by lia.
      replace (Zdigits2 m - Zpos p + (e + Zpos p)) with t by (unfold t; lia).
      now symmetry.
    + intros H0. rewrite H0 in Hds. cbn [Zdigits2] in Hds.
      rewrite Hfe. rewrite fexp_eq in *. unfold t in *. lia.
Qed.

(** The result of a rounding is a float. *)
Lemma binary_round_aux_valid (s : bool) (mx ex : Z) (lx : location) :
  0 <= mx -> ex <= fexp (Zdigits2 mx + ex) ->
  is_float (binary_round_aux prec emax s mx ex lx).
Proof.
  intros Hm He. unfold is_float, binary_round_aux.
  destruct (shr_fexp_canonical mx ex lx Hm He) as (H1 & H2 & H3).
  destruct (shr_fexp prec emax mx ex lx) as [mrs' e']. cbn [fst snd] in H1, H2, H3.
  pose proof (round_nearest_even_bounds (shr_m mrs') (loc_of_shr_record mrs')) as Hr.
  pose proof (inexact_nonneg (loc_of_shr_record mrs')) as Hi.
  set (m2 := round_nearest_even (shr_m mrs') (loc_of_shr_record mrs')) in *.
  assert (Hm2 : 0 <= m2) by lia.
  assert (He2 : e' <= fexp (Zdigits2 m2 + e')).
  { destruct (Z.eq_dec (shr_m mrs') 0) as [H0|Hne].
    - rewrite (H3 H0), fexp_eq. lia.
    - rewrite <- (H2 ltac:(lia)) at 1. apply fexp_mono.
      pose proof (Zdigits2_mono (shr_m mrs') m2 ltac:(lia)). lia. }
  destruct (shr_fexp_canonical m2 e' loc_Exact Hm2 He2) as (H4 & H5 & _).
  destruct (shr_fexp prec emax m2 e' loc_Exact) as [mrs'' e'']. cbn [fst snd] in H4, H5.
  destruct (shr_m mrs'') as [|m|m] eqn:Em; [reflexivity| |lia].
  destruct (Z.leb_spec e'' (emax - prec)) as [Hle|Hgt]; [|reflexivity].
  cbn [valid_binary]. unfold bounded, canonical_mantissa.
  change (SpecFloat.fexp prec emax) with fexp.
  specialize (H5 ltac:(lia)). cbn [Zdigits2] in H5. rewrite H5, Z.eqb_refl.
  cbn [andb]. now apply Z.leb_le.
Qed.

End Canonical.

Section Percent.

(** The quotient the division core hands to the rounding has digits
    enough. *)
Lemma SFdiv_core_binary_digits (mx my : positive) (ex ey : Z) :
  let r := SFdiv_core_binary prec emax (Zpos mx) ex (Zpos my) ey in
  0 <= fst (fst r) /\
  snd (fst r) <= fexp (Zdigits2 (fst (fst r)) + snd (fst r)).
Proof.
  cbv zeta.
  destruct (SFdiv_core_binary_spec mx my ex ey) as (Hez & Hq & _).
  destruct (SFdiv_core_binary prec emax (Zpos mx) ex (Zpos my) ey) as [[q ez] lz].
  cbn [fst snd] in *.
  pose proof (digits_ge mx) as Hd1. pose proof (digits_lt my) as Hd2.
  set (d1 := Zpos (digits2_pos mx)) in *. set (d2 := Zpos (digits2_pos my)) in *.
  assert (Hd1' : 0 < d1) by (unfold d1; lia).
  assert (Hd2' : 0 < d2) by (unfold d2; lia).
  assert (Hs : 0 <= ex - ey - ez) by lia.
  set (s := ex - ey - ez) in *.
  pose proof (pow2_pos s Hs) as H2s.
  assert (Hq0 : 0 <= q) by (rewrite Hq; apply Z.div_pos; nia).
  split; [exact Hq0|].
  assert (Hdq : d1 + s - d2 <= Zdigits2 q).
  { pose proof (Zdigits2_nonneg q) as Hn.
    destruct (Z.le_gt_cases (d1 + s - d2) 0) as [|Hpos]; [lia|].
    assert (Hk : 2 ^ (d1 - 1 + s - d2) <= q).
    { rewrite Hq. apply Z.div_le_lower_bound; [lia|].
      assert (E : 2 ^ (d1 - 1) * 2 ^ s = 2 ^ (d1 - 1 + s - d2) * 2 ^ d2)
        by (rewrite <- !pow2_split by lia; f_equal; lia).
      pose proof (pow2_pos (d1 - 1 + s - d2) ltac:(lia)). nia. }
    assert (Hq1 : 0 < q) by (pose proof (pow2_pos (d1 - 1 + s - d2) ltac:(lia)); lia).
    destruct (Zdigits2_bounds q Hq1) as [_ Hhi].
    destruct (Z.le_gt_cases (d1 + s - d2) (Zdigits2 q)) as [|Hgt]; auto. exfalso.
    assert (2 ^ Zdigits2 q <= 2 ^ (d1 - 1 + s - d2)) by (apply Z.pow_le_mono_r; lia).
    lia. }
  assert (Hle : fexp (d1 + ex - (d2 + ey)) <= fexp (Zdigits2 q + ez))
    by (apply fexp_mono; unfold s in Hdq; lia).
  lia.
Qed.

(** [a / b] on integers with [0 <= a <= b]: a float, not negative, at
    most 1. *)
Lemma int_truediv_unit (a b : Z) :
  0 <= a <= b -> 0 < b ->
  exists q, int_truediv a b = Ok q /\ is_float q /\ bounded_by 1 0 q /\ nonneg q.
Proof.
  intros Ha Hb. unfold int_truediv.
  destruct (Z.eqb_spec b 0) as [|_]; [lia|].
  replace (a <? 0) with false by (symmetry; apply Z.ltb_ge; lia).
  replace (b <? 0) with false by (symmetry; apply Z.ltb_ge; lia).
  cbn [xorb]. rewrite (Z.abs_eq a), (Z.abs_eq b) by lia.
  destruct b as [|my|my]; try lia.
  destruct a as [|mx|mx]; try lia.
  - (* 0 / b *)
    unfold SFdiv_core_binary. cbn [Zdigits2].
    set (ez := Z.min _ _).
    assert (Hm : match 0 - 0 - ez with
                 | Z.pos _ => Z.shiftl 0 (0 - 0 - ez) | _ => 0 end = 0)
      by (destruct (0 - 0 - ez); auto using Z.shiftl_0_l).
    rewrite Hm. cbn [Z.div_eucl].
    assert (Hez : ez <= 0) by (unfold ez; lia).
    destruct (binary_round_aux_upper false 0 ez (new_location (Zpos my) 0) 0 0)
      as [Hbd Hsg]; try lia.
    { replace (new_location (Zpos my) 0) with loc_Exact
        by (symmetry; now apply new_location_exact).
      cbn [inexact]. lia. }
    destruct (binary_round_aux prec emax false 0 ez (new_location (Zpos my) 0))
      as [s|s| |s m e]; cbn [bounded_by has_sign] in Hbd, Hsg; try contradiction.
    + eexists. split; [reflexivity|]. repeat split.
    + lia.
  - (* a / b, both positive *)
    destruct (SFdiv_core_binary_spec mx my 0 0) as (Hez & Hq & Hl).
    destruct (SFdiv_core_binary_digits mx my 0 0) as (Hq0 & Hdg).
    destruct (SFdiv_core_binary prec emax (Zpos mx) 0 (Zpos my) 0) as [[q ez] lz].
    cbn [fst snd] in *.
    assert (Hez0 : ez <= 0) by lia.
    pose proof (pow2_pos (0 - 0 - ez) ltac:(lia)) as H2.
    replace (0 - 0 - ez) with (0 - ez) in * by lia.
    pose proof (binary_round_aux_valid false q ez lz Hq0 Hdg) as Hv.
    destruct (binary_round_aux_upper false q ez lz 1 0) as [Hbd Hsg]; try lia.
    { rewrite Hq. destruct lz as [|c]; cbn [inexact].
      - assert (Zpos mx * 2 ^ (0 - ez) / Zpos my <= 2 ^ (0 - ez)); [|lia].
        apply Z.div_le_upper_bound; nia.
      - assert (Zpos mx * 2 ^ (0 - ez) / Zpos my < 2 ^ (0 - ez)); [|lia].
        apply Z.div_lt_upper_bound; [lia|].
        destruct (Z.eq_dec (Zpos mx) (Zpos my)) as [Heq|]; [|nia].
        exfalso. rewrite Heq, (Z.mul_comm (Zpos my)), Z.mod_mul in Hl by lia.
        destruct Hl as [_ Hl]. specialize (Hl eq_refl). discriminate. }
    destruct (binary_round_aux prec emax false q ez lz) as [s|s| |s m e];
      cbn [bounded_by has_sign] in Hbd, Hsg; try contradiction;
      (eexists; split; [reflexivity|]); repeat split; auto; try apply Hbd.
Qed.

Lemma hundred_bounded : bounded_by 100 0 hundred /\ nonneg hundred.
Proof. cbn. repeat split; lia. Qed.

(** A product with 100.0 is a float. *)
Lemma mul_hundred_valid (x : float) : is_float (mul x hundred).
Proof.
  destruct x as [s|s| |s m e]; try reflexivity.
  unfold mul, hundred, SFmul.
  apply binary_round_aux_valid; [lia|].
  rewrite fexp_eq.
  assert (53 <= Zdigits2 (Zpos (m * 7036874417766400))); [|lia].
  rewrite <- (Zdigits2_unique 7036874417766400 53) by (split; vm_compute; congruence).
  apply Zdigits2_mono. lia.
Qed.

(** A float that is at most 100 and not negative passes the range test. *)
Lemma bounded_in_range (p : float) :
  is_float p -> bounded_by 100 0 p -> nonneg p -> in_range p = true.
Proof.
  intros Hf Hb Hs.
  destruct p as [s|s| |s m e]; cbn [bounded_by nonneg] in Hb, Hs; try contradiction.
  - now destruct s.
  - apply in_range_finite. split; [exact Hs|].
    destruct (is_float_mantissa _ _ _ Hf) as (_ & He & Hn).
    destruct Hb as [He0 Hm].
    destruct (Z.lt_trichotomy e (-46)) as [Hlt|[Heq|Hgt]]; [now left| |exfalso].
    + right. split; [exact Heq|]. subst e.
      change (2 ^ (0 - -46)) with 70368744177664 in Hm. lia.
    + specialize (Hn ltac:(lia)). change (2 ^ 52) with 4503599627370496 in Hn.
      assert (2 ^ (0 - e) <= 2 ^ 45) by (apply Z.pow_le_mono_r; lia).
      change (2 ^ 45) with 35184372088832 in *. nia.
Qed.

(** The percentage of an entry no larger than the total: in range. *)
Lemma percent_in_range (size total_size : Z) :
  0 <= size <= total_size -> 0 < total_size ->
  exists quotient percent,
    int_truediv size total_size = Ok quotient /\
    mul_int quotient 100 = Ok percent /\
    is_float percent /\ in_range percent = true.
Proof.
  intros Hs Ht.
  destruct (int_truediv_unit size total_size Hs Ht) as (q & Eq & Hv & Hb & Hn).
  exists q, (mul q hundred).
  split; [exact Eq|].
  split; [unfold mul_int; now rewrite of_int_100|].
  pose proof (mul_hundred_valid q) as Hvp.
  split; [exact Hvp|].
  destruct hundred_bounded as [Hbh Hnh].
  destruct (mul_upper q hundred 1 100 0 0 Hb Hbh Hn Hnh) as [Hbp Hnp]; try lia.
  change (1 * 100) with 100 in Hbp. change (0 + 0) with 0 in Hbp.
  apply bounded_in_range; auto.
Qed.

End Percent.

(** ** A report that completes *)

Section Complete.

Lemma percent_to_graph_ok (p : float) (w : Z) :
  is_float p -> in_range p = true -> 0 <= w <= 90071992547409 ->
  exists bar, percent_to_graph p w = Ok bar /\ str_len bar = w.
Proof.
  intros Hf Hr Hw.
  destruct (filled_chars_bounds p w Hf Hr) as (x & y & k & Hx & Hy & Hk & Hb);
    [lia|change (2 ^ 53) with 9007199254740992; lia|].
  destruct (bar_shape k w Hb) as (Hlen & _).
  eexists. split; [|exact Hlen].
  unfold percent_to_graph. rewrite Hr, Hx. cbn [negb bind].
  rewrite Hy. cbn [bind]. now rewrite Hk.
Qed.

Lemma human_readable_size_ok (size_bytes : Z) :
  0 <= size_bytes <= 2 ^ 1024 - 2 ^ 971 ->
  exists s, human_readable_size size_bytes = Ok s.
Proof.
  intros Hb.
  destruct (of_int_upper size_bytes (2 ^ 53 - 1) 971) as (size & Esize & _);
    [change (2 ^ 1024 - 2 ^ 971) with ((2 ^ 53 - 1) * 2 ^ 971) in Hb; lia|lia|lia|].
  unfold human_readable_size. rewrite Esize. cbn [bind].
  destruct (scale_loop (List.length units) size 0) as [s i]. now eexists.
Qed.

Lemma size_string_ok (human_readable : bool) (size : Z) :
  0 <= size -> (human_readable = true -> size <= 2 ^ 1024 - 2 ^ 971) ->
  exists s, size_string human_readable size = Ok s.
Proof.
  intros H0 Hmax. unfold size_string. destruct human_readable.
  - apply human_readable_size_ok. split; auto.
  - now eexists.
Qed.

(** The line of an entry whose size is between 0 and the total. *)
Lemma entry_line_ok (total_size : Z) (human_readable : bool) (bar_length : Z)
    (path : string) (size : Z) :
  0 < total_size ->
  (human_readable = true -> total_size <= 2 ^ 1024 - 2 ^ 971) ->
  0 <= size <= total_size ->
  0 <= bar_length <= 90071992547409 ->
  exists percent bar size_str,
    in_range percent = true /\ str_len bar = bar_length /\
    size_string human_readable size = Ok size_str /\
    entry_line total_size human_readable bar_length (path, size) =
      Ok (rjust 3 (format_fixed 0 percent) ++ " % [" ++ bar ++ "] " ++
          ljust 8 size_str ++ " " ++ path)%string.
Proof.
  intros Ht Hmax Hs Hw.
  destruct (percent_in_range size total_size Hs Ht) as (q & p & Eq & Ep & Hf & Hr).
  destruct (percent_to_graph_ok p bar_length Hf Hr Hw) as (bar & Ebar & Hlen).
  destruct (size_string_ok human_readable size) as (size_str & Es); [lia|intros; specialize (Hmax H); lia|].
  exists p, bar, size_str. repeat (split; [assumption|]).
  unfold entry_line. rewrite Eq. cbn [bind]. rewrite Ep. cbn [bind].
  rewrite Ebar. cbn [bind]. rewrite Es. reflexivity.
Qed.

Lemma print_entries_complete (total_size : Z) (target_dir : string) (hr : bool)
    (w : Z) (R : string * Z -> string -> Prop) (l : list (string * Z)) :
  Forall (fun e => fst e <> target_dir /\
                   exists line, entry_line total_size hr w e = Ok line /\ R e line) l ->
  exists lines,
    print_entries total_size target_dir hr w l = (lines, Ok tt) /\ Forall2 R l lines.
Proof.
  induction 1 as [|[p s] r [Hne (line & Hline & HR)] _ (lines & Hrun & Hall)].
  - exists []. split; [reflexivity|constructor].
  - exists (line :: lines). cbn [print_entries]. cbn [fst] in Hne.
    apply String.eqb_neq in Hne. rewrite Hne, Hline.
    unfold lift, print, io_bind. rewrite Hrun.
    split; [reflexivity|]. now constructor.
Qed.

(** The loop of the report on a dictionary whose entries, the target
    apart, have sizes between 0 and the total: one line for each entry
    shown, no exception. *)
Lemma print_entries_ok (dir_dict : dict) (total_size : Z) (target_dir : string)
    (human_readable : bool) (bar_length : Z) :
  0 < total_size ->
  (human_readable = true -> total_size <= 2 ^ 1024 - 2 ^ 971) ->
  Forall (fun entry => fst entry = target_dir \/ 0 <= snd entry <= total_size) dir_dict ->
  0 <= bar_length <= 90071992547409 ->
  exists lines,
    print_entries total_size target_dir human_readable bar_length (sorted_desc dir_dict) =
      (lines, Ok tt) /\
    Forall2
      (fun entry line =>
         exists percent bar size_str,
           in_range percent = true /\ str_len bar = bar_length /\
           size_string human_readable (snd entry) = Ok size_str /\
           line = (rjust 3 (format_fixed 0 percent) ++ " % [" ++ bar ++ "] " ++
                   ljust 8 size_str ++ " " ++ fst entry)%string)
      (shown_entries dir_dict target_dir) lines.
Proof.
  intros Ht Hmax Hd Hw.
  rewrite print_entries_skip. fold (shown_entries dir_dict target_dir).
  apply print_entries_complete.
  apply Forall_forall. intros [p s] He.
  pose proof (shown_entries_not_target dir_dict target_dir) as Hnt.
  rewrite Forall_forall in Hnt, Hd. pose proof (Hnt _ He) as Hne.
  split; [exact Hne|].
  apply filter_In in He. destruct He as [He _].
  apply (Permutation_in _ (sorted_desc_perm dir_dict)) in He.
  destruct (Hd _ He) as [Heq|Hrange]; [now destruct Hne|]. cbn [snd] in Hrange.
  destruct (entry_line_ok total_size human_readable bar_length p s Ht Hmax Hrange Hw)
    as (percent & bar & size_str & Hr & Hlen & Hs & Hline).
  eexists. split; [exact Hline|]. now exists percent, bar, size_str.
Qed.

(** The steps of the line of an entry whose size is between 0 and the
    total: none raises, the percentage is in range and the bar has the
    width asked for. *)
Lemma entry_line_steps (total_size : Z) (human_readable : bool) (bar_length : Z)
    (path : string) (size : Z) :
  0 < total_size ->
  (human_readable = true -> total_size <= 2 ^ 1024 - 2 ^ 971) ->
  0 <= size <= total_size ->
  0 <= bar_length <= 90071992547409 ->
  exists (quotient percent : float) (bar size_str : string),
    int_truediv size total_size = Ok quotient /\
    mul_int quotient 100 = Ok percent /\
    in_range percent = true /\
    percent_to_graph percent bar_length = Ok bar /\
    str_len bar = bar_length /\
    size_string human_readable size = Ok size_str /\
    entry_line total_size human_readable bar_length (path, size) =
      Ok (rjust 3 (format_fixed 0 percent) ++ " % [" ++ bar ++ "] " ++
          ljust 8 size_str ++ " " ++ path)%string.
Proof.
  intros Ht Hmax Hs Hw.
  destruct (percent_in_range size total_size Hs Ht) as (q & p & Eq & Ep & Hf & Hr).
  destruct (percent_to_graph_ok p bar_length Hf Hr Hw) as (bar & Ebar & Hlen).
  destruct (size_string_ok human_readable size) as (size_str & Es);
    [lia|intros; specialize (Hmax H); lia|].
  exists q, p, bar, size_str. repeat (split; [assumption|]).
  unfold entry_line. rewrite Eq. cbn [bind]. rewrite Ep. cbn [bind].
  rewrite Ebar. cbn [bind]. rewrite Es. reflexivity.
Qed.

(** X9.  When the total is positive, every entry other than the target has
    a size between 0 and the total, the width is between 0 and
    90071992547409 and the total is a size the report can write (a float
    with [-H], at most 4300 digits without), [print_directory_info] raises
    nothing.  It prints one line for every entry shown, in order, then the
    total.  The line of an entry holds the percentage [size / total * 100],
    which passes the range test, its bar from [percent_to_graph], as long as
    the width, the size and the path. *)
Theorem print_directory_info_complete (dir_dict : dict) (total_size : Z)
    (target_dir : string) (human_readable : bool) (bar_length : Z) :
  0 < total_size ->
  (human_readable = true -> total_size <= 2 ^ 1024 - 2 ^ 971) ->
  (human_readable = false -> convertible total_size) ->
  Forall (fun entry => fst entry = target_dir \/ 0 <= snd entry <= total_size) dir_dict ->
  0 <= bar_length <= 90071992547409 ->
  exists lines total_str,
    print_directory_info dir_dict total_size target_dir human_readable bar_length =
      (lines ++ ["Total: " ++ total_str ++ "   " ++ target_dir]%string, Ok tt) /\
    size_string human_readable total_size = Ok total_str /\
    Forall2
      (fun entry line =>
         exists (quotient percent : float) (bar size_str : string),
           int_truediv (snd entry) total_size = Ok quotient /\
           mul_int quotient 100 = Ok percent /\
           in_range percent = true /\
           percent_to_graph percent bar_length = Ok bar /\
           str_len bar = bar_length /\
           size_string human_readable (snd entry) = Ok size_str /\
           line = (rjust 3 (format_fixed 0 percent) ++ " % [" ++ bar ++ "] " ++
                   ljust 8 size_str ++ " " ++ fst entry)%string)
      (shown_entries dir_dict target_dir) lines.
Proof.
  intros Ht Hmax _ Hd Hw.
  destruct (size_string_ok human_readable total_size) as (total_str & Etot);
    [lia|exact Hmax|].
  pose proof (shown_entries_not_target dir_dict target_dir) as Hnt.
  destruct (print_entries_complete total_size target_dir human_readable bar_length
              (fun entry line =>
                 exists (quotient percent : float) (bar size_str : string),
                   int_truediv (snd entry) total_size = Ok quotient /\
                   mul_int quotient 100 = Ok percent /\
                   in_range percent = true /\
                   percent_to_graph percent bar_length = Ok bar /\
                   str_len bar = bar_length /\
                   size_string human_readable (snd entry) = Ok size_str /\
                   line = (rjust 3 (format_fixed 0 percent) ++ " % [" ++ bar ++ "] " ++
                           ljust 8 size_str ++ " " ++ fst entry)%string)
              (shown_entries dir_dict target_dir)) as (lines & Hrun & Hall).
  { apply Forall_forall. intros [p s] He.
    rewrite Forall_forall in Hnt, Hd. pose proof (Hnt _ He) as Hne.
    split; [exact Hne|].
    apply filter_In in He. destruct He as [He _].
    apply (Permutation_in _ (sorted_desc_perm dir_dict)) in He.
    destruct (Hd _ He) as [Heq|Hrange]; [now destruct Hne|]. cbn [snd] in Hrange.
    destruct (entry_line_steps total_size human_readable bar_length p s Ht Hmax Hrange Hw)
      as (q & percent & bar & size_str & Eq & Ep & Hr & Eb & Hlen & Hs & Hline).
    eexists. split; [exact Hline|]. exists q, percent, bar, size_str.
    cbn [fst snd]. repeat (split; [assumption|]). reflexivity. }
  exists lines, total_str.
  split; [|split; [exact Etot|exact Hall]].
  unfold print_directory_info. rewrite print_entries_skip.
  fold (shown_entries dir_dict target_dir). rewrite Hrun.
  unfold lift, print, io_bind. rewrite Etot. reflexivity.
Qed.

Lemma print_directory_info_complete_witness :
  exists lines total_str,
    print_directory_info [("/a", 100); ("/a/b", 50); ("/a/c", 30); ("/a/d", 20)]%string
      100 "/a" false 20 =
      (lines ++ ["Total: " ++ total_str ++ "   " ++ "/a"]%string, Ok tt) /\
    size_string false 100 = Ok total_str /\
    Forall2
      (fun entry line =>
         exists (quotient percent : float) (bar size_str : string),
           int_truediv (snd entry) 100 = Ok quotient /\
           mul_int quotient 100 = Ok percent /\
           in_range percent = true /\
           percent_to_graph percent 20 = Ok bar /\
           str_len bar = 20 /\
           size_string false (snd entry) = Ok size_str /\
           line = (rjust 3 (format_fixed 0 percent) ++ " % [" ++ bar ++ "] " ++
                   ljust 8 size_str ++ " " ++ fst entry)%string)
      (shown_entries [("/a", 100); ("/a/b", 50); ("/a/c", 30); ("/a/d", 20)]%string "/a")
      lines.
Proof.
  apply (print_directory_info_complete
           [("/a", 100); ("/a/b", 50); ("/a/c", 30); ("/a/d", 20)]%string 100 "/a" false 20).
  - lia.
  - discriminate.
  - intros _. reflexivity.
  - repeat (apply Forall_cons;
      [cbn [fst snd]; first [left; reflexivity|right; lia]|]).
    apply Forall_nil.
  - lia.
Defined.

(** X10.  A run on a directory whose [du] output parses, holds the target
    with a positive size and no size beyond it ends with exit code 0 after
    it printed one line for every other path and the total. *)
Theorem main_succeeds (sys : system) (args : namespace) (dir_dict : dict)
    (total_size : Z) :
  isdir sys (target args) = true ->
  create_dir_dict (call_du_sub sys (target args)) = Ok dir_dict ->
  dict_get (target args) dir_dict = Ok total_size ->
  0 < total_size ->
  (human_readable args = true -> total_size <= 2 ^ 1024 - 2 ^ 971) ->
  Forall (fun entry => fst entry = target args \/ 0 <= snd entry <= total_size) dir_dict ->
  0 <= length args <= 90071992547409 ->
  exists lines total_str,
    main sys args =
      (lines ++ ["Total: " ++ total_str ++ "   " ++ target args]%string, Finished) /\
    exit_code (snd (main sys args)) = 0 /\
    List.length lines = List.length (shown_entries dir_dict (target args)).
Proof.
  intros Hdir Hd Hget Ht Hmax Hall Hw.
  destruct (print_entries_ok dir_dict total_size (target args) (human_readable args)
              (length args) Ht Hmax Hall Hw) as (lines & Hrun & Hlines).
  destruct (size_string_ok (human_readable args) total_size) as (total_str & Etot);
    [lia|exact Hmax|].
  exists lines, total_str.
  assert (Hm : main sys args =
               (lines ++ ["Total: " ++ total_str ++ "   " ++ target args]%string, Finished)).
  { unfold main, main_body. rewrite Hdir, Hd. cbn [negb lift io_bind].
    assert (Hmem : dict_mem (target args) dir_dict = true)
      by (apply dict_mem_get; now exists total_size).
    rewrite Hmem, Hget. cbn [app]. unfold print_directory_info. rewrite Hrun.
    unfold lift, print, io_bind. rewrite Etot. reflexivity. }
  rewrite Hm. split; [reflexivity|]. split; [reflexivity|].
  symmetry. exact (Forall2_length Hlines).
Qed.

Lemma main_succeeds_witness :
  exists lines total_str,
    main (system_partial 0) args_here =
      (lines ++ ["Total: " ++ total_str ++ "   " ++ target args_here]%string, Finished) /\
    exit_code (snd (main (system_partial 0) args_here)) = 0 /\
    List.length lines =
      List.length (shown_entries [("./a", 4); (".", 8)]%string (target args_here)).
Proof.
  apply (main_succeeds (system_partial 0) args_here [("./a", 4); (".", 8)]%string 8).
  - reflexivity.
  - reflexivity.
  - reflexivity.
  - lia.
  - discriminate.
  - repeat (apply Forall_cons;
      [cbn [fst snd]; first [left; reflexivity|right; lia]|]).
    apply Forall_nil.
  - cbn. lia.
Defined.

End Complete.

(** ** Operations that are exact *)

Section Exact.

(** Rounding a mantissa that is already canonical changes nothing. *)
Lemma binary_round_aux_exact (s : bool) (m : positive) (e : Z) :
  fexp (Zpos (digits2_pos m) + e) = e -> e <= 971 ->
  binary_round_aux prec emax s (Zpos m) e loc_Exact = S754_finite s m e.
Proof.
  intros Hc He. unfold binary_round_aux, shr_fexp. cbn [Zdigits2].
  change (SpecFloat.fexp prec emax) with fexp.
  rewrite Hc, Z.sub_diag. cbn [shr shr_record_of_loc shr_m loc_of_shr_record round_nearest_even].
  cbn [Zdigits2]. rewrite Hc, Z.sub_diag. cbn [shr shr_record_of_loc shr_m].
  change (emax - prec) with 971.
  destruct (Z.leb_spec e 971); [reflexivity|lia].
Qed.

Lemma digits2_pos_iter_xO (d m : positive) :
  Zpos (digits2_pos (Pos.iter xO m d)) = Zpos (digits2_pos m) + Zpos d.
Proof.
  pose proof (Zdigits2_unique (Zpos (Pos.iter xO m d)) (Zpos (digits2_pos m) + Zpos d)) as H.
  cbn [Zdigits2] in H. apply H; [|lia].
  rewrite iter_xO.
  pose proof (digits_ge m) as Hlo. pose proof (digits_lt m) as Hhi.
  pose proof (pow2_pos (Zpos d) ltac:(lia)) as HD.
  assert (E1 : 2 ^ (Zpos (digits2_pos m) + Zpos d - 1) =
               2 ^ (Zpos (digits2_pos m) - 1) * 2 ^ Zpos d)
    by (rewrite <- pow2_split by lia; f_equal; lia).
  rewrite E1, pow2_split by lia. nia.
Qed.

(** Rounding an integer of at most 53 bits: the integer itself, the
    mantissa filled to 53 bits. *)
Lemma binary_round_exact (s : bool) (b : positive) :
  Zpos b < 2 ^ 53 ->
  exists m : positive,
    binary_round prec emax s b 0 = S754_finite s m (Zpos (digits2_pos b) - 53) /\
    Zpos (digits2_pos m) = 53 /\
    Zpos m = Zpos b * 2 ^ (53 - Zpos (digits2_pos b)).
Proof.
  intros Hb.
  pose proof (digits_le b 53 Hb) as Hd.
  unfold binary_round.
  change (SpecFloat.fexp prec emax) with fexp. rewrite fexp_eq.
  set (d := Zpos (digits2_pos b)) in *.
  assert (Hd0 : 0 < d) by (unfold d; lia).
  rewrite Z.add_0_r, Z.max_l by lia.
  unfold shl_align.
  destruct (d - 53 - 0) as [|p|p] eqn:E; try lia.
  - exists b. assert (Hd53 : d = 53) by lia.
    rewrite binary_round_aux_exact; [| fold d; rewrite fexp_eq; lia | lia].
    replace (d - 53) with 0 by lia.
    repeat split; auto. rewrite Hd53. change (2 ^ (53 - 53)) with 1. lia.
  - exists (Pos.iter xO b p).
    assert (Hdp : Zpos (digits2_pos (Pos.iter xO b p)) = 53)
      by (rewrite digits2_pos_iter_xO; fold d; lia).
    rewrite binary_round_aux_exact; [| rewrite Hdp, fexp_eq; lia | lia].
    repeat split; auto.
    rewrite iter_xO. f_equal. f_equal. lia.
Qed.

(** [float(z)] for an integer of at most 53 bits, of either sign. *)
Lemma of_int_exact (s : bool) (b : positive) :
  Zpos b < 2 ^ 53 ->
  exists m : positive,
    of_int (cond_Zopp s (Zpos b)) =
      Ok (S754_finite s m (Zpos (digits2_pos b) - 53)) /\
    Zpos (digits2_pos m) = 53 /\
    Zpos m = Zpos b * 2 ^ (53 - Zpos (digits2_pos b)).
Proof.
  intros Hb. destruct (binary_round_exact s b Hb) as (m & E & Hd & Hm).
  exists m. repeat split; auto.
  unfold of_int, binary_normalize. destruct s; cbn [cond_Zopp Z.opp]; now rewrite E.
Qed.

(** Dividing a float of 53 bits by 1024 takes 10 from its exponent. *)
Lemma div_kibi_exact (m : positive) (e : Z) :
  Zpos (digits2_pos m) = 53 -> -1063 <= e <= 971 ->
  div (S754_finite false m e) kibi = S754_finite false m (e - 10).
Proof.
  intros Hd He. unfold div, kibi, SFdiv.
  destruct (SFdiv_core_binary_spec m 4503599627370496 e (-42)) as (Hez & Hq & Hl).
  destruct (SFdiv_core_binary prec emax (Zpos m) e (Zpos 4503599627370496) (-42))
    as [[q ez] lz].
  cbn [fst snd] in Hez, Hq, Hl.
  rewrite Hd in Hez.
  change (Zpos (digits2_pos 4503599627370496)) with 53 in Hez.
  rewrite fexp_eq in Hez.
  assert (Hez' : ez = e - 11) by lia. clear Hez. subst ez.
  replace (e - -42 - (e - 11)) with 53 in Hq, Hl by lia.
  assert (Hq' : q = Zpos m~0).
  { rewrite Hq. change (2 ^ 53) with (2 * 4503599627370496).
    rewrite Z.mul_assoc, Z.div_mul by lia. lia. }
  assert (Hlz : lz = loc_Exact).
  { apply Hl. change (2 ^ 53) with (2 * 4503599627370496).
    rewrite Z.mul_assoc. apply Z.mod_mul. lia. }
  clear Hq Hl. subst q lz. cbn [xorb].
  unfold binary_round_aux, shr_fexp. cbn [Zdigits2 digits2_pos].
  change (SpecFloat.fexp prec emax) with fexp.
  rewrite Pos2Z.inj_succ, Hd, fexp_eq.
  replace (Z.max (Z.succ 53 + (e - 11) - 53) (-1074) - (e - 11)) with 1 by lia.
  cbn [shr shr_record_of_loc SpecFloat.iter_pos shr_1 shr_m loc_of_shr_record
       shr_r shr_s orb round_nearest_even Zdigits2].
  rewrite Hd, fexp_eq.
  replace (Z.max (53 + (e - 11 + 1) - 53) (-1074) - (e - 11 + 1)) with 0 by lia.
  cbn [shr shr_record_of_loc shr_m]. change (emax - prec) with 971.
  destruct (Z.leb_spec (e - 11 + 1) 971); [|lia].
  f_equal. lia.
Qed.

Lemma scaled_exact (n : nat) :
  forall (m : positive) (e : Z),
    Zpos (digits2_pos m) = 53 -> -1063 + 10 * Z.of_nat n <= e + 10 <= 971 ->
    scaled n (S754_finite false m e) = S754_finite false m (e - 10 * Z.of_nat n).
Proof.
  induction n as [|n IH]; intros m e Hd He; cbn [scaled].
  - f_equal. lia.
  - rewrite div_kibi_exact by (auto; lia).
    rewrite IH by (auto; lia). f_equal. lia.
Qed.

(** The test [size >= 1024] on a positive float of 53 bits. *)
Lemma leb_kibi (m : positive) (e : Z) :
  Zpos (digits2_pos m) = 53 ->
  Float.leb kibi (S754_finite false m e) = true <-> -42 <= e.
Proof.
  intros Hd. unfold Float.leb, SFleb, kibi. cbn [SFcompare].
  destruct (Z.compare_spec (-42) e) as [He|He|He].
  - subst e.
    destruct (compare_cont_Eq_spec 4503599627370496 m) as [H|H|H];
      split; intros; try lia; try reflexivity.
    exfalso. pose proof (digits_ge m) as Hge. rewrite Hd in Hge.
    change (2 ^ (53 - 1)) with 4503599627370496 in Hge. lia.
  - split; [lia|reflexivity].
  - split; [discriminate|lia].
Qed.

Lemma div_half_even_exact (a c : Z) : 0 < c -> div_half_even (a * c) c = a.
Proof.
  intros Hc. unfold div_half_even.
  rewrite Z.div_mul, Z.mod_mul by lia.
  destruct (Z.compare_spec (2 * 0) c); lia.
Qed.

(** Rounding an exact value that a float holds gives that float. *)
Lemma binary_round_aux_repr (s : bool) (mx ex : Z) (m : positive) (e : Z) :
  fexp (Zpos (digits2_pos m) + e) = e -> e <= 971 -> ex <= e ->
  mx = Zpos m * 2 ^ (e - ex) ->
  binary_round_aux prec emax s mx ex loc_Exact = S754_finite s m e.
Proof.
  intros Hc He Hex Hmx.
  destruct (Z.eq_dec ex e) as [->|Hne].
  { rewrite Z.sub_diag in Hmx. change (2 ^ 0) with 1 in Hmx. rewrite Z.mul_1_r in Hmx.
    subst mx. now apply binary_round_aux_exact. }
  assert (Hp : exists p, e - ex = Zpos p) by (destruct (e - ex) eqn:E; try lia; eauto).
  destruct Hp as [p Hp]. rewrite Hp in Hmx.
  assert (Hmx' : mx = Zpos (Pos.iter xO m p)) by (rewrite iter_xO; exact Hmx).
  assert (Hfirst : shr_fexp prec emax mx ex loc_Exact =
                   (SpecFloat.iter_pos shr_1 p (shr_record_of_loc mx loc_Exact), e)).
  { unfold shr_fexp, shr. change (SpecFloat.fexp prec emax) with fexp.
    rewrite Hmx'. cbn [Zdigits2]. rewrite digits2_pos_iter_xO.
    replace (Zpos (digits2_pos m) + Zpos p + ex) with (Zpos (digits2_pos m) + e) by lia.
    rewrite Hc, Hp. f_equal. lia. }
  pose proof (shifted_iter p (shr_record_of_loc mx loc_Exact)) as Hs.
  unfold shifted in Hs. rewrite shr_m_record_of_loc, loc_of_record_of_loc in Hs.
  pose proof (pow2_pos (Zpos p) ltac:(lia)) as HD.
  destruct Hs as [Hq Hl]; [lia|].
  assert (Hm' : shr_m (SpecFloat.iter_pos shr_1 p (shr_record_of_loc mx loc_Exact)) = Zpos m)
    by (rewrite Hq, Hmx; apply Z.div_mul; lia).
  assert (Hl' : loc_of_shr_record
                  (SpecFloat.iter_pos shr_1 p (shr_record_of_loc mx loc_Exact)) = loc_Exact)
    by (apply Hl; split; [reflexivity|rewrite Hmx; apply Z.mod_mul; lia]).
  unfold binary_round_aux. rewrite Hfirst, Hm', Hl'.
  cbn [round_nearest_even]. unfold shr_fexp. cbn [Zdigits2].
  change (SpecFloat.fexp prec emax) with fexp.
  rewrite Hc, Z.sub_diag. cbn [shr shr_record_of_loc shr_m].
  change (emax - prec) with 971.
  destruct (Z.leb_spec e 971); [reflexivity|lia].
Qed.

(** [round] gives back the integer a float was made from. *)
Lemma round_exact (s : bool) (b m : positive) :
  Zpos b < 2 ^ 53 -> Zpos m = Zpos b * 2 ^ (53 - Zpos (digits2_pos b)) ->
  round (S754_finite s m (Zpos (digits2_pos b) - 53)) = Ok (cond_Zopp s (Zpos b)).
Proof.
  intros Hb Hm. pose proof (digits_le b 53 Hb) as Hd.
  cbn [round]. f_equal. f_equal. unfold nearest_int.
  destruct (Zpos (digits2_pos b) - 53) as [|p|p] eqn:E; try lia.
  - replace (53 - Zpos (digits2_pos b)) with 0 in Hm by lia.
    change (2 ^ 0) with 1 in *. lia.
  - replace (53 - Zpos (digits2_pos b)) with (Zpos p) in Hm by lia.
    rewrite Hm. apply div_half_even_exact. apply pow2_pos. lia.
Qed.

End Exact.

(** ** The value [human_readable_size] prints *)

Section SizeValue.

Lemma div_half_even_scale (a d c : Z) :
  0 < d -> 0 < c -> div_half_even (a * c) (d * c) = div_half_even a d.
Proof.
  intros Hd Hc. unfold div_half_even.
  rewrite Z.div_mul_cancel_r, Z.mul_mod_distr_r by lia.
  rewrite Z.mul_assoc, <- (Zmult_compare_compat_r (2 * (a mod d)) d c) by lia.
  reflexivity.
Qed.

Lemma pow_1024 (k : Z) : 0 <= k -> 1024 ^ k = 2 ^ (10 * k).
Proof. intros Hk. rewrite Z.pow_mul_r by lia. reflexivity. Qed.

(** The number of bits of a positive integer against a power of 2. *)
Lemma digits_gt_iff (b : positive) (k : Z) :
  0 <= k -> (k < Zpos (digits2_pos b) <-> 2 ^ k <= Zpos b).
Proof.
  intros Hk. pose proof (digits_lt b) as Hlt. pose proof (digits_ge b) as Hge.
  split; intros H.
  - apply Z.le_trans with (2 ^ (Zpos (digits2_pos b) - 1)); auto.
    apply Z.pow_le_mono_r; lia.
  - apply (Z.pow_lt_mono_r_iff 2); try lia.
Qed.

(** One decimal of a positive float with a negative exponent. *)
Lemma format_fixed_1_value (m p : positive) :
  format_fixed 1 (S754_finite false m (Zneg p)) =
    (let q := div_half_even (Zpos m * 10) (2 ^ Zpos p) in
     str (q / 10) ++ "." ++ str (q mod 10))%string.
Proof.
  unfold format_fixed. change (10 ^ Z.of_nat 1) with 10.
  cbv zeta.
  pose proof (Z.mod_pos_bound (div_half_even (Zpos m * 10) (2 ^ Zpos p)) 10 ltac:(lia)) as Hr.
  rewrite str_digit_length by lia. reflexivity.
Qed.

(** X11.  The size with its unit, for every size from 0 to 2^53 - 1: the
    unit is the largest power of 1024 that is at most the size, P at the
    most, and the number is the size over that power, to one decimal, ties
    to even. *)
Theorem human_readable_size_value (size_bytes : Z) (n : nat) :
  0 <= size_bytes < 2 ^ 53 -> (n <= 5)%nat ->
  (n = 0%nat \/ 1024 ^ Z.of_nat n <= size_bytes) ->
  (n = 5%nat \/ size_bytes < 1024 ^ (Z.of_nat n + 1)) ->
  human_readable_size size_bytes =
    (let q := div_half_even (10 * size_bytes) (1024 ^ Z.of_nat n) in
     Ok (str (q / 10) ++ "." ++ str (q mod 10) ++ " " ++ nth n units ""))%string.
Proof.
  intros Hb Hn Hlo Hhi.
  destruct size_bytes as [|b|b]; try lia.
  - assert (n = 0%nat) as ->.
    { destruct Hlo as [|Hlo]; auto.
      pose proof (Z.pow_pos_nonneg 1024 (Z.of_nat n) ltac:(lia) ltac:(lia)). lia. }
    reflexivity.
  - destruct (of_int_exact false b) as (m & Esize & Hdm & Hm); [lia|].
    cbn [cond_Zopp] in Esize.
    set (d := Zpos (digits2_pos b)) in *.
    assert (Hd : 0 < d <= 53) by (pose proof (digits_le b 53); unfold d; lia).
    assert (Hsc : forall j : nat, (j <= 5)%nat ->
              scaled j (S754_finite false m (d - 53)) =
                S754_finite false m (d - 53 - 10 * Z.of_nat j))
      by (intros j Hj; apply scaled_exact; auto; lia).
    assert (Hleb : forall j : nat, (j <= 5)%nat ->
              Float.leb kibi (scaled j (S754_finite false m (d - 53))) = true <->
              1024 ^ (Z.of_nat j + 1) <= Zpos b).
    { intros j Hj. rewrite Hsc, leb_kibi, pow_1024 by (auto; lia).
      rewrite <- digits_gt_iff by lia. fold d. lia. }
    destruct (scale_loop_spec (List.length units) (S754_finite false m (d - 53)) 0)
      as (n' & Hrun & Hn' & Hall & Hend); [cbn; lia|lia|].
    cbn [Nat.add] in Hrun, Hn', Hend.
    assert (Hmono : forall i j : nat, (i < j)%nat ->
              1024 ^ (Z.of_nat i + 1) <= 1024 ^ Z.of_nat j)
      by (intros i j Hij; apply Z.pow_le_mono_r; lia).
    assert (En : n' = n).
    { destruct (Nat.lt_total n' n) as [Hlt|[Heq|Hgt]]; auto; exfalso.
      - destruct Hend as [Hend|Hend]; [lia|].
        assert (Hnot : ~ 1024 ^ (Z.of_nat n' + 1) <= Zpos b).
        { intros H. apply Hleb in H; [congruence|lia]. }
        destruct Hlo as [Hlo|Hlo]; [lia|].
        specialize (Hmono n' n Hlt). lia.
      - specialize (Hall n Hgt). apply Hleb in Hall; [|lia].
        destruct Hhi as [Hhi|Hhi]; lia. }
    subst n'.
    unfold human_readable_size. rewrite Esize. cbn [bind]. rewrite Hrun, Hsc by lia.
    assert (Hneg : d - 53 - 10 * Z.of_nat n < 0).
    { destruct (Z.eq_dec d 53) as [E53|]; [|lia].
      destruct (Nat.eq_dec n 0) as [E0|]; [|lia]. exfalso. subst n.
      destruct Hhi as [Hhi|Hhi]; [lia|].
      assert (H52 : 2 ^ 52 <= Zpos b) by (apply digits_gt_iff; fold d; lia).
      change (1024 ^ (Z.of_nat 0 + 1)) with 1024 in Hhi.
      change (2 ^ 52) with 4503599627370496 in H52. lia. }
    destruct (d - 53 - 10 * Z.of_nat n) as [|p|p] eqn:Ee; try lia.
    rewrite format_fixed_1_value. cbv zeta.
    assert (Eq : div_half_even (Zpos m * 10) (2 ^ Zpos p) =
                 div_half_even (10 * Zpos b) (1024 ^ Z.of_nat n)).
    { rewrite Hm, pow_1024 by lia.
      replace (Zpos p) with (10 * Z.of_nat n + (53 - d)) by lia.
      rewrite pow2_split by lia.
      replace (Zpos b * 2 ^ (53 - d) * 10) with (10 * Zpos b * 2 ^ (53 - d)) by lia.
      apply div_half_even_scale; apply pow2_pos; lia. }
    rewrite Eq. f_equal.
    repeat (rewrite append_assoc; cbn [append]). reflexivity.
Qed.

Lemma human_readable_size_value_witness :
  human_readable_size 11075584 =
    (let q := div_half_even (10 * 11075584) (1024 ^ Z.of_nat 2) in
     Ok (str (q / 10) ++ "." ++ str (q mod 10) ++ " " ++ nth 2 units ""))%string.
Proof.
  apply (human_readable_size_value 11075584 2).
  - split; [lia|reflexivity].
  - lia.
  - right. vm_compute. discriminate.
  - right. reflexivity.
Defined.

End SizeValue.

Section NegativeSize.

(** X12.  A negative size above -2^53 is never divided: it is printed
    whole, in bytes, whatever its magnitude. *)
Theorem human_readable_size_negative (size_bytes : Z) :
  - 2 ^ 53 < size_bytes < 0 ->
  human_readable_size size_bytes = Ok ("-" ++ str (- size_bytes) ++ ".0 B")%string.
Proof.
  intros Hb. destruct size_bytes as [|b|b]; try lia.
  destruct (of_int_exact true b) as (m & Esize & Hdm & Hm); [lia|].
  cbn [cond_Zopp Z.opp] in Esize.
  pose proof (digits_le b 53 ltac:(lia)) as Hd.
  set (d := Zpos (digits2_pos b)) in *.
  unfold human_readable_size. rewrite Esize. cbn [bind].
  change (scale_loop (List.length units) (S754_finite true m (d - 53)) 0)
    with (S754_finite true m (d - 53), 0%nat).
  cbn [nth units Z.opp].
  assert (En : match d - 53 with
               | Zneg p => div_half_even (Zpos m * 10) (2 ^ Zpos p)
               | _ => Zpos m * 2 ^ (d - 53) * 10
               end = Zpos b * 10).
  { destruct (d - 53) as [|p|p] eqn:E; try lia.
    - replace (53 - d) with 0 in Hm by lia. change (2 ^ 0) with 1 in *. lia.
    - replace (53 - d) with (Zpos p) in Hm by lia. rewrite Hm.
      replace (Zpos b * 2 ^ Zpos p * 10) with (Zpos b * 10 * 2 ^ Zpos p) by lia.
      apply div_half_even_exact. apply pow2_pos. lia. }
  unfold format_fixed. change (10 ^ Z.of_nat 1) with 10.
  rewrite En, Z.div_mul, Z.mod_mul by lia.
  f_equal. repeat (rewrite append_assoc; cbn [append]). reflexivity.
Qed.

Lemma human_readable_size_negative_witness :
  human_readable_size (-5000) = Ok ("-" ++ str (- -5000) ++ ".0 B")%string.
Proof. apply (human_readable_size_negative (-5000)). split; reflexivity. Defined.

End NegativeSize.

(** ** Bars of a negative length *)

Section NegativeWidth.

(** [float(w)] for a negative [w]: negative, and not below a bound that is
    a float. *)
Lemma of_int_neg_upper (w K g : Z) :
  w < 0 -> - w <= K * 2 ^ g -> 0 <= g <= 971 -> 0 <= K < 2 ^ 53 ->
  exists f, of_int w = Ok f /\ bounded_by K g f /\ nonneg (SFopp f).
Proof.
  intros Hw Hle Hg HK. unfold of_int, binary_normalize.
  destruct w as [|m|m]; try lia.
  unfold binary_round.
  destruct (shl_align_spec m 0 (SpecFloat.fexp prec emax (Zpos (digits2_pos m) + 0)))
    as [He Hm].
  destruct (shl_align m 0 _) as [mz ez]. cbn [fst snd] in He, Hm.
  destruct (binary_round_aux_upper true (Zpos mz) ez loc_Exact K g) as [Hb Hs];
    try lia.
  { cbn [inexact]. rewrite Hm.
    replace (g - ez) with (g + (0 - ez)) by lia.
    rewrite pow2_split by lia.
    pose proof (pow2_pos (0 - ez) ltac:(lia)). nia. }
  destruct (binary_round_aux prec emax true (Zpos mz) ez loc_Exact) as [s|s| |s m' e'];
    cbn in Hb, Hs; try contradiction.
  - eexists; repeat split; cbn; auto.
  - subst s. eexists; repeat split; try apply Hb.
Qed.

Lemma mul_neg_upper (x y : float) (K1 K2 g1 g2 : Z) :
  bounded_by K1 g1 x -> bounded_by K2 g2 y -> nonneg x -> nonneg (SFopp y) ->
  0 <= K1 -> 0 <= K2 -> K1 * K2 < 2 ^ 53 -> -1074 <= g1 + g2 <= 971 ->
  bounded_by (K1 * K2) (g1 + g2) (mul x y) /\ nonneg (SFopp (mul x y)).
Proof.
  intros Hx Hy Sx Sy HK1 HK2 HK Hg.
  destruct x as [sx|sx| |sx mx ex], y as [sy|sy| |sy my ey];
    cbn in Hx, Hy, Sx, Sy; try contradiction; try (cbn; auto; fail).
  subst sx. apply negb_false_iff in Sy. subst sy. unfold mul, SFmul. cbn [xorb].
  destruct Hx as [Hex Hmx], Hy as [Hey Hmy].
  destruct (binary_round_aux_upper true (Zpos (mx * my)) (ex + ey) loc_Exact
              (K1 * K2) (g1 + g2)) as [Hb Hs]; try lia.
  - cbn [inexact]. rewrite Pos2Z.inj_mul.
    replace (g1 + g2 - (ex + ey)) with ((g1 - ex) + (g2 - ey)) by lia.
    rewrite pow2_split by lia.
    pose proof (pow2_pos (g1 - ex) ltac:(lia)).
    pose proof (pow2_pos (g2 - ey) ltac:(lia)). nia.
  - split; auto.
    destruct (binary_round_aux prec emax true (Zpos (mx * my)) (ex + ey) loc_Exact);
      cbn in Hs |- *; auto. now subst.
Qed.

Lemma round_neg_upper (f : float) (K : Z) :
  0 <= K -> bounded_by K 0 f -> nonneg (SFopp f) ->
  exists k, round f = Ok k /\ - K <= k <= 0.
Proof.
  intros HK Hb Hs.
  destruct f as [s|s| |s m e]; cbn in Hb, Hs; try contradiction.
  - exists 0. split; [reflexivity|lia].
  - apply negb_false_iff in Hs. subst s. destruct Hb as [He Hm]. cbn [round cond_Zopp].
    eexists; split; [reflexivity|].
    assert (H : 0 <= nearest_int m e <= K); [|lia].
    unfold nearest_int. destruct e as [|p|p]; [|lia|].
    + cbn [Z.sub Z.opp] in Hm. change (2 ^ 0) with 1 in *. lia.
    + replace (0 - Z.neg p) with (Zpos p) in Hm by lia.
      split.
      * apply div_half_even_nonneg; [lia|apply pow2_pos; lia].
      * apply div_half_even_upper; [lia|apply pow2_pos; lia|auto].
Qed.

Lemma str_mul_nonpos (s : string) (n : Z) : n <= 0 -> str_mul s n = ""%string.
Proof.
  intros Hn. unfold str_mul. replace (Z.to_nat n) with O by lia. reflexivity.
Qed.

(** X13.  A negative bar length, down to -90071992547409, is no error for a
    percentage in range: the bar is the empty string. *)
Theorem percent_to_graph_negative_width (percent : float) (total_chars : Z) :
  is_float percent -> in_range percent = true ->
  - 90071992547409 <= total_chars < 0 ->
  percent_to_graph percent total_chars = Ok ""%string.
Proof.
  intros Hf Hr Hw.
  destruct (in_range_bounded percent Hf Hr) as [Hb Hs].
  destruct (of_int_neg_upper total_chars (- total_chars) 0) as (fw & Ew & Hbw & Hsw);
    try lia.
  destruct (mul_neg_upper percent fw 100 (- total_chars) 0 0 Hb Hbw Hs Hsw) as [Hbx Hsx];
    try lia.
  change (0 + 0) with 0 in Hbx.
  set (x := mul percent fw) in *.
  assert (Hy : bounded_by (- total_chars) 0 (div x hundred) /\
               nonneg (SFopp (div x hundred))).
  { destruct x as [s|s| |s mx ex]; cbn [bounded_by nonneg SFopp] in Hbx, Hsx;
      try contradiction.
    - unfold div, hundred. cbn [SFdiv bounded_by nonneg SFopp]. auto.
    - apply negb_false_iff in Hsx. subst s. destruct Hbx as [Hex Hmx]. unfold hundred.
      destruct (div_upper true false mx 7036874417766400 ex (-46) (- total_chars) 0)
        as [H1 H2]; try lia.
      split; auto. cbn [xorb] in H2.
      destruct (div _ _); cbn in H2 |- *; auto. now subst. }
  destruct Hy as [Hby Hsy].
  destruct (round_neg_upper _ (- total_chars) ltac:(lia) Hby Hsy) as (k & Ek & Hk).
  unfold percent_to_graph. rewrite Hr. cbn [negb].
  unfold mul_int, div_int. rewrite Ew. cbn [bind].
  change (100 =? 0) with false. cbv iota. rewrite of_int_100. cbn [bind].
  fold x. rewrite Ek. cbn [bind].
  rewrite !str_mul_nonpos by lia. reflexivity.
Qed.

Lemma percent_to_graph_negative_width_witness :
  percent_to_graph thirty_seven_half (-20) = Ok ""%string.
Proof.
  apply (percent_to_graph_negative_width thirty_seven_half (-20)).
  - reflexivity.
  - reflexivity.
  - lia.
Defined.

End NegativeWidth.

(** ** The percentage field and the exceptions of [main] *)

Section PercentField.

Lemma rjust_length (n : nat) (s : string) :
  (String.length s <= n)%nat -> String.length (rjust n s) = n.
Proof.
  intros H. unfold rjust. rewrite length_app, repeat_char_length. lia.
Qed.

Lemma str_length_100 (k : Z) : 0 <= k <= 100 -> (String.length (str k) <= 3)%nat.
Proof.
  intros Hk.
  assert (H : forallb (fun i => (String.length (str (Z.of_nat i)) <=? 3)%nat) (seq 0 101)
              = true) by (vm_compute; reflexivity).
  rewrite forallb_forall in H. specialize (H (Z.to_nat k)).
  rewrite Z2Nat.id in H by lia. apply Nat.leb_le, H, in_seq. lia.
Qed.

(** No decimal of a positive float that is at most 100. *)
Lemma format_fixed_0_value (m : positive) (e : Z) :
  bounded_by 100 0 (S754_finite false m e) ->
  exists k : Z, 0 <= k <= 100 /\ format_fixed 0 (S754_finite false m e) = str k.
Proof.
  intros [He Hm]. unfold format_fixed. change (10 ^ Z.of_nat 0) with 1.
  set (n := match e with
            | Z.neg p => div_half_even (Zpos m * 1) (2 ^ Zpos p)
            | _ => Zpos m * 2 ^ e * 1
            end).
  assert (Hn : 0 <= n <= 100).
  { unfold n. destruct e as [|p|p]; [|lia|].
    - change (2 ^ (0 - 0)) with 1 in Hm. change (2 ^ 0) with 1. lia.
    - replace (0 - Z.neg p) with (Zpos p) in Hm by lia.
      pose proof (pow2_pos (Zpos p) ltac:(lia)).
      split; [apply div_half_even_nonneg|apply div_half_even_upper]; lia. }
  exists n. split; [exact Hn|].
  rewrite Z.div_1_r. cbn [append]. apply append_nil_r.
Qed.

(** X14.  The percentage of a line takes three characters exactly: for a
    percentage in range the field [3.0f] is never wider than its minimum, so
    the bars of all lines start in the same column.  What is printed is an
    integer from 0 to 100, but for the negative zero. *)
Theorem percent_field_width (percent : float) :
  is_float percent -> in_range percent = true ->
  String.length (rjust 3 (format_fixed 0 percent)) = 3%nat /\
  (percent <> S754_zero true ->
   exists k : Z, 0 <= k <= 100 /\ format_fixed 0 percent = str k).
Proof.
  intros Hf Hr.
  destruct (in_range_bounded percent Hf Hr) as [Hb Hs].
  destruct percent as [s|s| |s m e]; cbn [bounded_by nonneg] in Hb, Hs;
    try contradiction.
  - destruct s.
    + split; [reflexivity|]. intros H. now destruct H.
    + split; [reflexivity|]. intros _. exists 0. split; [lia|reflexivity].
  - subst s. destruct (format_fixed_0_value m e Hb) as (k & Hk & Ek).
    split; [|intros _; now exists k].
    rewrite Ek. apply rjust_length, str_length_100, Hk.
Qed.

Lemma percent_field_width_witness :
  String.length (rjust 3 (format_fixed 0 thirty_seven_half)) = 3%nat /\
  (thirty_seven_half <> S754_zero true ->
   exists k : Z, 0 <= k <= 100 /\ format_fixed 0 thirty_seven_half = str k).
Proof.
  apply (percent_field_width thirty_seven_half); reflexivity.
Defined.

End PercentField.

Section NoIndexError.

Lemma of_int_raises (z : Z) (e : exn) : of_int z = Raise e -> e = OverflowError.
Proof.
  unfold of_int. destruct (binary_normalize prec emax z 0 false); congruence.
Qed.

Lemma int_truediv_raises (a b : Z) (e : exn) :
  int_truediv a b = Raise e -> e = ZeroDivisionError \/ e = OverflowError.
Proof.
  unfold int_truediv. destruct (b =? 0); [intros [= <-]; auto|].
  destruct (SFdiv_core_binary prec emax (Z.abs a) 0 (Z.abs b) 0) as [[mz ez] lz].
  destruct (binary_round_aux prec emax _ mz ez lz); intros [= <-]; auto.
Qed.

Lemma round_raises (x : float) (e : exn) :
  round x = Raise e -> e = OverflowError \/ e = ValueError.
Proof. destruct x; cbn [round]; intros [= <-]; auto. Qed.

(** The exceptions of the arithmetic: never an [IndexError] and never a
    [KeyError]. *)
Lemma percent_to_graph_raises (percent : float) (total_chars : Z) (e : exn) :
  percent_to_graph percent total_chars = Raise e ->
  e = ValueError \/ e = OverflowError.
Proof.
  unfold percent_to_graph. destruct (negb (in_range percent)); [intros [= <-]; auto|].
  unfold mul_int, div_int.
  destruct (of_int total_chars) as [fw|e1] eqn:E1; cbn [bind];
    [|intros [= <-]; right; eapply of_int_raises; eauto].
  change (100 =? 0) with false. cbv iota. rewrite of_int_100. cbn [bind].
  destruct (round _) as [k|e2] eqn:E2; cbn [bind]; [discriminate|].
  intros [= <-]. destruct (round_raises _ _ E2); auto.
Qed.

Lemma size_string_raises (human_readable : bool) (size : Z) (e : exn) :
  size_string human_readable size = Raise e -> e = OverflowError.
Proof.
  unfold size_string, human_readable_size. destruct human_readable; [|discriminate].
  destruct (of_int size) as [f|e1] eqn:E1; cbn [bind].
  - destruct (scale_loop _ f 0); discriminate.
  - intros [= <-]. eapply of_int_raises; eauto.
Qed.

Lemma entry_line_raises (total_size : Z) (human_readable : bool) (bar_length : Z)
    (entry : string * Z) (e : exn) :
  entry_line total_size human_readable bar_length entry = Raise e ->
  e = ZeroDivisionError \/ e = OverflowError \/ e = ValueError.
Proof.
  destruct entry as [p s]. unfold entry_line.
  destruct (int_truediv s total_size) as [q|e1] eqn:E1; cbn [bind];
    [|intros [= <-]; destruct (int_truediv_raises _ _ _ E1); auto].
  unfold mul_int. rewrite of_int_100. cbn [bind].
  destruct (percent_to_graph _ bar_length) as [bar|e2] eqn:E2; cbn [bind];
    [|intros [= <-]; destruct (percent_to_graph_raises _ _ _ E2); auto].
  destruct (size_string human_readable s) as [str|e3] eqn:E3; cbn [bind];
    [discriminate|].
  intros [= <-]. rewrite (size_string_raises _ _ _ E3). auto.
Qed.

Lemma print_entries_raises (total_size : Z) (target_dir : string)
    (human_readable : bool) (bar_length : Z) (sorted_dirs : list (string * Z)) (e : exn) :
  snd (print_entries total_size target_dir human_readable bar_length sorted_dirs) = Raise e ->
  e = ZeroDivisionError \/ e = OverflowError \/ e = ValueError.
Proof.
  induction sorted_dirs as [|[p s] rest IH]; cbn [print_entries].
  - discriminate.
  - destruct (String.eqb p target_dir); [exact IH|].
    unfold lift, print, io_bind.
    destruct (entry_line total_size human_readable bar_length (p, s)) as [line|e1] eqn:E1.
    + destruct (print_entries total_size target_dir human_readable bar_length rest)
        as [out r]. cbn [snd app] in *. exact IH.
    + cbn [snd]. intros [= <-]. eapply entry_line_raises; eauto.
Qed.

Lemma print_directory_info_raises (dir_dict : dict) (total_size : Z)
    (target_dir : string) (human_readable : bool) (bar_length : Z) (e : exn) :
  snd (print_directory_info dir_dict total_size target_dir human_readable bar_length)
    = Raise e ->
  e = ZeroDivisionError \/ e = OverflowError \/ e = ValueError.
Proof.
  unfold print_directory_info.
  pose proof (print_entries_raises total_size target_dir human_readable bar_length
                (sorted_desc dir_dict)) as H.
  destruct (print_entries _ _ _ _ _) as [out [[]|e1]]; cbn [snd io_bind] in *.
  - unfold lift, print, io_bind.
    destruct (size_string human_readable total_size) as [t|e2] eqn:E2; cbn [snd].
    + discriminate.
    + intros [= <-]. rewrite (size_string_raises _ _ _ E2). auto.
  - intros [= <-]. apply H. reflexivity.
Qed.

(** X15.  [main] ends with an [IndexError] in one case only: the path is a
    directory and [du] printed no line.  Nothing is printed then. *)
Theorem main_index_error (sys : system) (args : namespace) :
  (snd (main sys args) = Uncaught IndexError <->
   isdir sys (target args) = true /\ call_du_sub sys (target args) = []) /\
  (snd (main sys args) = Uncaught IndexError -> fst (main sys args) = []).
Proof.
  assert (Hempty : isdir sys (target args) = true ->
                   call_du_sub sys (target args) = [] ->
                   main sys args = ([], Uncaught IndexError)).
  { intros Hdir Hdu. unfold main, main_body. rewrite Hdir, Hdu. reflexivity. }
  assert (Hconv : snd (main sys args) = Uncaught IndexError ->
                  isdir sys (target args) = true /\ call_du_sub sys (target args) = []).
  { unfold main, main_body.
    destruct (isdir sys (target args)); cbn [negb]; [|discriminate].
    intros H. split; [reflexivity|]. revert H.
    destruct (create_dir_dict (call_du_sub sys (target args))) as [d|e] eqn:Ed;
      cbn [lift io_bind].
    2: { rewrite (create_dir_dict_from_raises _ _ _ Ed). discriminate. }
    assert (Hrest : forall t,
              snd (let (out, r) :=
                     io_bind (lift (dict_get t d))
                       (fun total_size =>
                          print_directory_info d total_size t (human_readable args)
                            (length args)) in
                   match r with
                   | Ok _ => (out, Finished)
                   | Raise e => (out, Uncaught e)
                   end) <> Uncaught IndexError).
    { intros t. unfold lift, io_bind.
      destruct (dict_get t d) as [v|e] eqn:Eg.
      - pose proof (print_directory_info_raises d v t (human_readable args) (length args))
          as Hp.
        destruct (print_directory_info _ _ _ _ _) as [out [[]|e]]; cbn [snd app] in *.
        + discriminate.
        + intros [= ->]. destruct (Hp _ eq_refl) as [|[|]]; discriminate.
      - rewrite (dict_get_raises _ _ _ Eg). discriminate. }
    destruct (dict_mem (target args) d).
    - intros H. exfalso. revert H.
      specialize (Hrest (target args)). unfold lift, io_bind in *.
      destruct (dict_get (target args) d);
        [destruct (print_directory_info _ _ _ _ _) as [o [[]|]]|]; cbn [app] in *; exact Hrest.
    - destruct (call_du_sub sys (target args)) as [|l ls] eqn:Edu; [reflexivity|].
      intros H. exfalso. revert H.
      destruct (rev (l :: ls)) as [|last r] eqn:Er.
      { apply (f_equal (@List.length string)) in Er. rewrite length_rev in Er. discriminate. }
      specialize (Hrest (join (tl (split last)))). unfold lift, io_bind in *.
      destruct (dict_get _ d);
        [destruct (print_directory_info _ _ _ _ _) as [o [[]|]]|]; cbn [app] in *; exact Hrest. }
  split; [split; [exact Hconv|]|].
  - intros [Hdir Hdu]. now rewrite Hempty.
  - intros H. destruct (Hconv H) as [Hdir Hdu]. now rewrite Hempty.
Qed.

Lemma main_index_error_witness :
  (snd (main (system_printing "") args_here) = Uncaught IndexError <->
   isdir (system_printing "") (target args_here) = true /\
   call_du_sub (system_printing "") (target args_here) = []) /\
  (snd (main (system_printing "") args_here) = Uncaught IndexError ->
   fst (main (system_printing "") args_here) = []).
Proof. apply (main_index_error (system_printing "") args_here). Defined.

End NoIndexError.

(** ** The two ends of the scale *)

Section Extremes.

(** The number of bits of [100 * w]: up to seven more than [w] has. *)
Lemma digits_times_100 (w : positive) :
  Zpos (digits2_pos w) <= Zpos (digits2_pos (100 * w)) <= Zpos (digits2_pos w) + 7.
Proof.
  pose proof (digits_lt w) as Hlt. pose proof (digits_ge w) as Hge.
  split.
  - assert (H : Zpos (digits2_pos w) - 1 < Zpos (digits2_pos (100 * w))); [|lia].
    apply digits_gt_iff; lia.
  - apply digits_le. rewrite pow2_split by lia. change (2 ^ 7) with 128. lia.
Qed.

(** [100.0 * w] and [(100.0 * w) / 100] are exact as long as [100 * w] is
    below 2^53. *)
Lemma mul_hundred_exact (w mw mx : positive) :
  let dw := Zpos (digits2_pos w) in
  let dx := Zpos (digits2_pos (100 * w)) in
  Zpos (100 * w) < 2 ^ 53 ->
  Zpos mw = Zpos w * 2 ^ (53 - dw) ->
  Zpos (digits2_pos mx) = 53 -> Zpos mx = Zpos (100 * w) * 2 ^ (53 - dx) ->
  mul hundred (S754_finite false mw (dw - 53)) = S754_finite false mx (dx - 53).
Proof.
  intros dw dx Hx Hmw Hdx Hmx.
  pose proof (digits_times_100 w) as Hd. fold dw dx in Hd.
  pose proof (digits_le (100 * w) 53 Hx) as Hd53. fold dx in Hd53.
  assert (Hdw : 0 < dw) by (unfold dw; lia).
  unfold mul, hundred, SFmul. cbn [xorb].
  apply binary_round_aux_repr.
  - rewrite Hdx, fexp_eq. lia.
  - lia.
  - lia.
  - rewrite Pos2Z.inj_mul, Hmw, Hmx, Pos2Z.inj_mul.
    replace (dx - 53 - (-46 + (dw - 53))) with ((dx - dw) + 46) by lia.
    replace (53 - dw) with ((53 - dx) + (dx - dw)) by lia.
    rewrite !pow2_split by lia. change (2 ^ 46) with 70368744177664. lia.
Qed.

Lemma div_hundred_exact (w mw mx : positive) :
  let dw := Zpos (digits2_pos w) in
  let dx := Zpos (digits2_pos (100 * w)) in
  Zpos (100 * w) < 2 ^ 53 ->
  Zpos (digits2_pos mw) = 53 -> Zpos mw = Zpos w * 2 ^ (53 - dw) ->
  Zpos (digits2_pos mx) = 53 -> Zpos mx = Zpos (100 * w) * 2 ^ (53 - dx) ->
  div (S754_finite false mx (dx - 53)) hundred = S754_finite false mw (dw - 53).
Proof.
  intros dw dx Hx Hdw53 Hmw Hdx Hmx.
  pose proof (digits_times_100 w) as Hd. fold dw dx in Hd.
  pose proof (digits_le (100 * w) 53 Hx) as Hd53. fold dx in Hd53.
  assert (Hdw : 0 < dw) by (unfold dw; lia).
  unfold div, hundred, SFdiv.
  destruct (SFdiv_core_binary_spec mx 7036874417766400 (dx - 53) (-46)) as (Hez & Hq & Hl).
  destruct (SFdiv_core_binary prec emax (Zpos mx) (dx - 53) (Zpos 7036874417766400) (-46))
    as [[q ez] lz].
  cbn [fst snd] in Hez, Hq, Hl.
  rewrite Hdx in Hez.
  change (Zpos (digits2_pos 7036874417766400)) with 53 in Hez.
  rewrite fexp_eq in Hez.
  assert (Hez' : ez = dx - 60) by lia. clear Hez. subst ez.
  replace (dx - 53 - -46 - (dx - 60)) with 53 in Hq, Hl by lia.
  assert (Hnum : Zpos mx * 2 ^ 53 =
                 Zpos w * 2 ^ (53 - dx) * 128 * 7036874417766400).
  { rewrite Hmx, Pos2Z.inj_mul. change (2 ^ 53) with 9007199254740992. lia. }
  rewrite Hnum in Hq, Hl.
  rewrite Z.div_mul in Hq by lia.
  assert (Hlz : lz = loc_Exact) by (apply Hl, Z.mod_mul; lia).
  clear Hl. subst q lz. cbn [xorb].
  apply binary_round_aux_repr.
  - rewrite Hdw53, fexp_eq. lia.
  - lia.
  - lia.
  - rewrite Hmw.
    replace (dw - 53 - (dx - 60)) with (dw + 7 - dx) by lia.
    replace (53 - dx) with ((53 - dw - 7) + (dw + 7 - dx)) at 1 by lia.
    destruct (Z.eq_dec dx (dw + 7)) as [E|NE].
    + rewrite E. replace (dw + 7 - (dw + 7)) with 0 by lia.
      replace (53 - dw - 7 + 0) with (53 - (dw + 7)) by lia.
      replace (53 - dw) with ((53 - (dw + 7)) + 7) by lia.
      rewrite pow2_split by lia. change (2 ^ 7) with 128. change (2 ^ 0) with 1. lia.
    + replace (53 - dw - 7 + (dw + 7 - dx)) with (53 - dx) by lia.
      replace (53 - dw) with ((53 - dx) + (dx - dw)) by lia.
      replace (dw + 7 - dx) with (7 - (dx - dw)) by lia.
      assert (H7 : 2 ^ (dx - dw) * 2 ^ (7 - (dx - dw)) = 128).
      { rewrite <- pow2_split by lia. replace (dx - dw + (7 - (dx - dw))) with 7 by lia.
        reflexivity. }
      rewrite pow2_split by lia. nia.
Qed.

Lemma str_mul_0 (s : string) : str_mul s 0 = ""%string.
Proof. reflexivity. Qed.

Lemma percent_to_graph_zero (total_chars : Z) :
  0 <= total_chars <= 90071992547409 ->
  percent_to_graph zero total_chars = Ok (str_mul " " total_chars).
Proof.
  intros Hw.
  destruct total_chars as [|w|w]; [reflexivity| |lia].
  destruct (of_int_exact false w) as (mw & Ew & Hdw & Hmw);
    [change (2 ^ 53) with 9007199254740992; lia|].
  cbn [cond_Zopp] in Ew.
  unfold percent_to_graph, mul_int, div_int. rewrite Ew. cbn [bind].
  change (100 =? 0) with false. cbv iota. rewrite of_int_100. cbn [bind].
  change (negb (in_range zero)) with false. cbv iota.
  unfold zero, mul, div, hundred. cbn [SFmul SFdiv xorb round bind].
  rewrite str_mul_0, Z.sub_0_r. reflexivity.
Qed.

Lemma percent_to_graph_hundred (total_chars : Z) :
  0 <= total_chars <= 90071992547409 ->
  percent_to_graph hundred total_chars = Ok (str_mul "=" total_chars).
Proof.
  intros Hw.
  destruct total_chars as [|w|w]; [reflexivity| |lia].
  destruct (of_int_exact false w) as (mw & Ew & Hdw & Hmw);
    [change (2 ^ 53) with 9007199254740992; lia|].
  cbn [cond_Zopp] in Ew.
  unfold percent_to_graph, mul_int, div_int. rewrite Ew. cbn [bind].
  change (100 =? 0) with false. cbv iota. rewrite of_int_100. cbn [bind].
  change (negb (in_range hundred)) with false. cbv iota.
  assert (Hx : Zpos (100 * w) < 2 ^ 53)
    by (rewrite Pos2Z.inj_mul; change (2 ^ 53) with 9007199254740992; lia).
  destruct (of_int_exact false (100 * w)) as (mx & _ & Hdx & Hmx); [exact Hx|].
  rewrite (mul_hundred_exact w mw mx Hx Hmw Hdx Hmx).
  rewrite (div_hundred_exact w mw mx Hx Hdw Hmw Hdx Hmx).
  rewrite (round_exact false w mw) by (auto; change (2 ^ 53) with 9007199254740992; lia).
  cbn [bind cond_Zopp]. rewrite Z.sub_diag, str_mul_0. now rewrite append_nil_r.
Qed.

(** X16.  The two ends of the scale, for a width from 0 to 90071992547409:
    at 0 % the bar is all spaces, at 100 % it is all [=]. *)
Theorem percent_to_graph_extremes (total_chars : Z) :
  0 <= total_chars <= 90071992547409 ->
  percent_to_graph zero total_chars = Ok (str_mul " " total_chars) /\
  percent_to_graph hundred total_chars = Ok (str_mul "=" total_chars).
Proof.
  intros Hw. split; [now apply percent_to_graph_zero|now apply percent_to_graph_hundred].
Qed.

Lemma percent_to_graph_extremes_witness :
  percent_to_graph zero 20 = Ok (str_mul " " 20) /\
  percent_to_graph hundred 20 = Ok (str_mul "=" 20).
Proof. apply (percent_to_graph_extremes 20). lia. Defined.

(** [a / a] is 1.0 and [0 / b] is 0.0, whatever the size of the integers. *)
Lemma int_truediv_self (a : Z) :
  0 < a -> int_truediv a a = Ok (S754_finite false 4503599627370496 (-52)).
Proof.
  intros Ha. unfold int_truediv.
  destruct (Z.eqb_spec a 0) as [|_]; [lia|].
  replace (a <? 0) with false by (symmetry; apply Z.ltb_ge; lia).
  cbn [xorb]. rewrite (Z.abs_eq a) by lia.
  destruct a as [|m|m]; try lia.
  destruct (SFdiv_core_binary_spec m m 0 0) as (Hez & Hq & Hl).
  destruct (SFdiv_core_binary prec emax (Zpos m) 0 (Zpos m) 0) as [[q ez] lz].
  cbn [fst snd] in Hez, Hq, Hl.
  replace (Zpos (digits2_pos m) + 0 - (Zpos (digits2_pos m) + 0)) with 0 in Hez by lia.
  assert (Hez' : ez = -53) by (rewrite Hez; reflexivity). clear Hez. subst ez.
  change (0 - 0 - -53) with 53 in Hq, Hl.
  rewrite (Z.mul_comm (Zpos m)) in Hq, Hl.
  rewrite Z.div_mul in Hq by lia.
  assert (Hlz : lz = loc_Exact) by (apply Hl, Z.mod_mul; lia).
  clear Hl. subst q lz.
  rewrite (binary_round_aux_repr false (2 ^ 53) (-53) 4503599627370496 (-52));
    reflexivity || lia.
Qed.

Lemma int_truediv_zero (b : Z) : 0 < b -> int_truediv 0 b = Ok (S754_zero false).
Proof.
  intros Hb. unfold int_truediv.
  destruct (Z.eqb_spec b 0) as [|_]; [lia|].
  replace (b <? 0) with false by (symmetry; apply Z.ltb_ge; lia).
  cbn [xorb Z.ltb Z.compare Z.abs]. rewrite (Z.abs_eq b) by lia.
  destruct b as [|my|my]; try lia.
  unfold SFdiv_core_binary. cbn [Zdigits2].
  set (ez := Z.min _ _).
  assert (Hm : match 0 - 0 - ez with
               | Z.pos _ => Z.shiftl 0 (0 - 0 - ez) | _ => 0 end = 0)
    by (destruct (0 - 0 - ez); auto using Z.shiftl_0_l).
  rewrite Hm. cbn [Z.div_eucl].
  assert (Hez : ez <= 0) by (unfold ez; lia).
  destruct (binary_round_aux_upper false 0 ez (new_location (Zpos my) 0) 0 0)
    as [Hbd Hsg]; try lia.
  { replace (new_location (Zpos my) 0) with loc_Exact
      by (symmetry; now apply new_location_exact).
    cbn [inexact]. lia. }
  destruct (binary_round_aux prec emax false 0 ez (new_location (Zpos my) 0))
    as [s|s| |s m e]; cbn [bounded_by has_sign] in Hbd, Hsg; try contradiction.
  - now subst s.
  - lia.
Qed.

(** X17.  The lines at the two ends, for a positive total: an entry as
    large as the total is shown with 100 % and a bar all [=], an entry of
    size 0 with 0 % and a bar all spaces. *)
Theorem entry_line_extremes (total_size : Z) (human_readable : bool)
    (bar_length : Z) (path total_str : string) :
  0 < total_size -> 0 <= bar_length <= 90071992547409 ->
  size_string human_readable total_size = Ok total_str ->
  entry_line total_size human_readable bar_length (path, total_size) =
    Ok ("100 % [" ++ str_mul "=" bar_length ++ "] " ++
        ljust 8 total_str ++ " " ++ path)%string /\
  entry_line total_size human_readable bar_length (path, 0) =
    Ok ("  0 % [" ++ str_mul " " bar_length ++ "] " ++
        ljust 8 (if human_readable then "0.0 B" else "0") ++ " " ++ path)%string.
Proof.
  intros Ht Hw Hs. unfold entry_line, mul_int. rewrite of_int_100. cbn [bind].
  split.
  - rewrite int_truediv_self by exact Ht. cbn [bind].
    change (mul (S754_finite false 4503599627370496 (-52)) hundred) with hundred.
    rewrite percent_to_graph_hundred by exact Hw. cbn [bind]. rewrite Hs. cbn [bind].
    reflexivity.
  - rewrite int_truediv_zero by exact Ht. cbn [bind].
    change (mul (S754_zero false) hundred) with zero.
    rewrite percent_to_graph_zero by exact Hw. cbn [bind].
    destruct human_readable; reflexivity.
Qed.

Lemma entry_line_extremes_witness :
  entry_line 8 false 20 ("./a", 8) =
    Ok ("100 % [" ++ str_mul "=" 20 ++ "] " ++ ljust 8 "8" ++ " " ++ "./a")%string /\
  entry_line 8 false 20 ("./a", 0) =
    Ok ("  0 % [" ++ str_mul " " 20 ++ "] " ++
        ljust 8 (if false then "0.0 B" else "0") ++ " " ++ "./a")%string.
Proof.
  apply (entry_line_extremes 8 false 20 "./a" "8"); [lia|lia|reflexivity].
Defined.

End Extremes.
